(** * Verification of the API-reference documentation generator

    Shallow embedding of [tensorflow/tools/docs/pretty_docs.py] (the markdown
    renderer) and of the parts of [tensorflow/tools/docs/parser.py] that
    [parser_test.py] exercises (ArgSpec resolver, docstring structurer,
    reference resolver).

    Python [str] values are [string]; a [dict] keyed by strings is a
    [gmap string _]; a list is a [list]; a raised exception is the [Raise]
    case of [result]. *)

From Stdlib Require Import Ascii.
From stdpp Require Import base option list sorting gmap strings.

(** ** Python strings *)

(** The one-character string [chr(10)]. *)
Definition nl : string := String (ascii_of_nat 10) "".

(** [sep.join(parts)]. *)
Definition join (sep : string) (parts : list string) : string :=
  String.concat sep parts.

(** Truth value of a [str]: non-empty. *)
Definition str_truthy (s : string) : bool :=
  match s with "" => false | _ => true end.

(** Truth value of a list: non-empty. *)
Definition list_truthy {A} (l : list A) : bool :=
  match l with [] => false | _ => true end.

(** The one-character string [chr(34)], the double quote of the [<h3>]
    templates. *)
Definition dq : string := String (ascii_of_nat 34) "".

(** Truth value of a [dict]: non-empty. *)
Definition dict_truthy {V} (d : gmap string V) : bool :=
  list_truthy (map_to_list d).

(** [sorted(xs)] on a list of [str]: Python compares strings character by
    character on their codes. *)
Definition sorted_str (xs : list string) : list string :=
  merge_sort String.le xs.

(** ** Exceptions *)

Inductive PyExc : Type :=
  | ValueError (msg : string)
  | AssertionError
  | UnboundLocalError (var : string).

Inductive result (A : Type) : Type :=
  | Ok (a : A)
  | Raise (e : PyExc).
Arguments Ok {A} a.
Arguments Raise {A} e.

#[global] Instance result_ret : MRet result := fun A a => Ok a.

#[global] Instance result_bind : MBind result := fun A B k r =>
  match r with
  | Ok a => k a
  | Raise e => Raise e
  end.

(** [assert cond]. *)
Definition py_assert (cond : bool) : result unit :=
  if cond then Ok tt else Raise AssertionError.

(** A [for] loop whose body may raise, threading the loop state. *)
Fixpoint for_each {A S} (body : S → A → result S) (xs : list A) (s : S)
  : result S :=
  match xs with
  | [] => Ok s
  | x :: xs' => s' ← body s x; for_each body xs' s'
  end.

(** ** Data model of the renderer *)

(** What [inspect.isclass], [inspect.isfunction] and [inspect.ismodule] can
    tell about the symbol a member refers to. *)
Inductive PyObj : Type :=
  | ObjClass
  | ObjFunction
  | ObjModule
  | ObjProperty
  | ObjOther.

Definition isclass (o : PyObj) : bool :=
  match o with ObjClass => true | _ => false end.
Definition isfunction (o : PyObj) : bool :=
  match o with ObjFunction => true | _ => false end.
Definition ismodule (o : PyObj) : bool :=
  match o with ObjModule => true | _ => false end.

(** [detail.keyword], [detail.header], [detail.items]. *)
Record FunctionDetail : Type := mkFunctionDetail {
  keyword : string;
  header : string;
  items : list (string * string)
}.

(** The [doc] attribute of a page or of a member: [brief], [docstring],
    [function_details], [compatibility]. *)
Record DocInfo : Type := mkDocInfo {
  brief : string;
  docstring : string;
  function_details : list FunctionDetail;
  compatibility : gmap string string
}.

(** Modelled from the spec: the member records of [parser.py] read by the
    renderer (MemberInfo of the data model): [short_name], [url], the symbol
    [obj], [doc], [signature] and the answer of [is_link()]. Where the
    renderer sorts a collection of them, the order is that of [short_name]. *)
Record MemberInfo : Type := mkMemberInfo {
  short_name : string;
  url : string;
  obj : PyObj;
  doc : DocInfo;
  signature : string;
  is_link : bool
}.

Definition member_le (a b : MemberInfo) : Prop :=
  String.le (short_name a) (short_name b).

#[global] Instance member_le_dec : RelDecision member_le.
Proof. intros a b. unfold member_le. apply _. Defined.

(** [sorted(infos)] on a collection of member records. *)
Definition sorted_members (xs : list MemberInfo) : list MemberInfo :=
  merge_sort member_le xs.

(** The attributes of a page that every kind of page carries.  [defined_in]
    is [None] or an object; [Some s] holds what [str] gives for it. *)
Record FunctionPageInfo : Type := mkFunctionPageInfo {
  fn_full_name : string;
  fn_signature : string;
  fn_aliases : list string;
  fn_defined_in : option string;
  fn_guides : string;
  fn_doc : DocInfo
}.

Record ClassPageInfo : Type := mkClassPageInfo {
  cls_full_name : string;
  cls_aliases : list string;
  cls_defined_in : option string;
  cls_guides : string;
  cls_doc : DocInfo;
  cls_classes : list MemberInfo;
  cls_properties : list MemberInfo;
  cls_methods : list MemberInfo;
  cls_other_members : list MemberInfo
}.

Record ModulePageInfo : Type := mkModulePageInfo {
  mod_full_name : string;
  mod_aliases : list string;
  mod_defined_in : option string;
  mod_doc : DocInfo;
  mod_members : list MemberInfo
}.

(** A page info answers [for_function()], [for_class()] and [for_module()];
    [OtherPageInfo] is an object answering false to all three, with the text
    of its [type]. *)
Inductive PageInfo : Type :=
  | ForFunction (p : FunctionPageInfo)
  | ForClass (p : ClassPageInfo)
  | ForModule (p : ModulePageInfo)
  | OtherPageInfo (type_repr : string).

Definition for_function (p : PageInfo) : bool :=
  match p with ForFunction _ => true | _ => false end.
Definition for_class (p : PageInfo) : bool :=
  match p with ForClass _ => true | _ => false end.
Definition for_module (p : PageInfo) : bool :=
  match p with ForModule _ => true | _ => false end.

(** ** pretty_docs.py *)

Module pretty_docs.

(** One entry of [_build_function_details]: the list [sub], joined. *)
Definition detail_item_md (kv : string * string) : string :=
  "* <b>`" +:+ kv.1 +:+ "`</b>:" +:+ kv.2.

Definition detail_md (detail : FunctionDetail) : string :=
  join "" (["#### " +:+ keyword detail +:+ ":" +:+ nl +:+ nl;
            header detail]
           ++ map detail_item_md (items detail)).

Definition _build_function_details (function_details : list FunctionDetail)
  : string :=
  join nl (map detail_md function_details).

(** [sorted(compatibility.keys())]. *)
Definition sorted_keys (compatibility : gmap string string) : list string :=
  sorted_str (map fst (map_to_list compatibility)).

Definition compatibility_md (compatibility : gmap string string)
    (key : string) : string :=
  let value := default "" (compatibility !! key) in
  nl +:+ nl +:+ "#### " +:+ key +:+ " compatibility" +:+ nl
     +:+ value +:+ nl.

Definition _build_compatibility (compatibility : gmap string string)
  : string :=
  join "" (map (compatibility_md compatibility) (sorted_keys compatibility)).

Definition _build_function_page (page_info : FunctionPageInfo) : string :=
  let parts :=
    ["# " +:+ fn_full_name page_info +:+ fn_signature page_info
          +:+ nl +:+ nl] in
  let parts :=
    if list_truthy (fn_aliases page_info)
    then parts
         ++ map (fun name =>
                   "### `" +:+ name +:+ fn_signature page_info +:+ "`" +:+ nl)
                (fn_aliases page_info)
         ++ [nl]
    else parts in
  let parts :=
    match fn_defined_in page_info with
    | Some defined_in => parts ++ [nl +:+ nl; defined_in]
    | None => parts
    end in
  let parts := parts ++ [fn_guides page_info] in
  let parts := parts ++ [docstring (fn_doc page_info)] in
  let parts :=
    parts ++ [_build_function_details (function_details (fn_doc page_info))] in
  let parts :=
    parts ++ [_build_compatibility (compatibility (fn_doc page_info))] in
  join "" parts.

(** [link_template.format(class_info=class_info)]. *)
Definition class_link (class_info : MemberInfo) : string :=
  "[`class " +:+ short_name class_info +:+ "`]"
    +:+ "(" +:+ url class_info +:+ ")" +:+ nl +:+ nl.

(** The [h3] template of properties and of other class members. *)
Definition h3_name (info : MemberInfo) : string :=
  "<h3 id=" +:+ dq +:+ short_name info +:+ dq +:+ "><code>"
    +:+ short_name info +:+ "</code></h3>" +:+ nl +:+ nl.

(** The [h3] template of methods, with the signature. *)
Definition h3_method (method_info : MemberInfo) : string :=
  "<h3 id=" +:+ dq +:+ short_name method_info +:+ dq +:+ ">"
    +:+ "<code>" +:+ short_name method_info +:+ signature method_info
    +:+ "</code>" +:+ "</h3>" +:+ nl +:+ nl.

(** Body of the loop over the sorted properties (lines 104-111). *)
Definition property_step (parts : list string) (prop_info : MemberInfo)
  : result (list string) :=
  let parts := parts ++ [h3_name prop_info] in
  let parts := parts ++ [docstring (doc prop_info)] in
  let parts :=
    parts ++ [_build_function_details (function_details (doc prop_info))] in
  _ ← py_assert (negb (dict_truthy (compatibility (doc prop_info))));
  Ok (parts ++ [nl +:+ nl]).

(** The [if page_info.properties:] block (lines 102-113). *)
Definition properties_section (parts : list string)
    (properties : list MemberInfo) : result (list string) :=
  if list_truthy properties then
    let parts := parts ++ ["## Properties" +:+ nl +:+ nl] in
    parts ← for_each property_step (sorted_members properties) parts;
    Ok (parts ++ [nl +:+ nl])
  else Ok parts.

(** Body of the loop over the sorted methods (lines 117-126): the parts one
    method appends. *)
Definition method_parts (method_info : MemberInfo) : list string :=
  [ h3_method method_info;
    docstring (doc method_info);
    _build_function_details (function_details (doc method_info));
    _build_compatibility (compatibility (doc method_info));
    nl +:+ nl ].

(** The [if page_info.methods:] block (lines 115-127): the parts it
    appends. *)
Definition methods_section (methods : list MemberInfo) : list string :=
  if list_truthy methods then
    ["## Methods" +:+ nl +:+ nl]
      ++ flat_map method_parts (sorted_members methods)
      ++ [nl +:+ nl]
  else [].

Definition _build_class_page (page_info : ClassPageInfo) : result string :=
  let parts := ["# " +:+ cls_full_name page_info +:+ nl +:+ nl] in
  let parts :=
    if list_truthy (cls_aliases page_info)
    then parts
         ++ map (fun name => "### `class " +:+ name +:+ "`" +:+ nl)
                (cls_aliases page_info)
         ++ [nl]
    else parts in
  let parts :=
    match cls_defined_in page_info with
    | Some defined_in => parts ++ [nl +:+ nl; defined_in]
    | None => parts
    end in
  let parts := parts ++ [cls_guides page_info] in
  let parts := parts ++ [docstring (cls_doc page_info)] in
  let parts :=
    parts ++ [_build_function_details (function_details (cls_doc page_info))] in
  _ ← py_assert (negb (dict_truthy (compatibility (cls_doc page_info))));
  let parts := parts ++ [nl +:+ nl] in
  let parts :=
    if list_truthy (cls_classes page_info)
    then parts ++ ["## Child Classes" +:+ nl]
         ++ sorted_str (map class_link (cls_classes page_info))
    else parts in
  parts ← properties_section parts (cls_properties page_info);
  let parts := parts ++ methods_section (cls_methods page_info) in
  let parts :=
    if list_truthy (cls_other_members page_info)
    then parts ++ ["## Class Members" +:+ nl +:+ nl]
         ++ map h3_name (sorted_members (cls_other_members page_info))
    else parts in
  Ok (join "" parts).

(** Body of the loop over [page_info.members] (lines 161-181).  The loop
    state is the list [parts] and the local variable [link_text], which is
    unbound ([None]) until a branch of the [if]/[elif] chain assigns it and
    keeps its value from one iteration to the next. *)
Definition member_step (st : list string * option string)
    (member_info : MemberInfo) : result (list string * option string) :=
  let '(parts, link_text) := st in
  if negb (is_link member_info) then
    Ok (parts ++ ["Constant " +:+ short_name member_info; nl +:+ nl],
        link_text)
  else
    let suffix := "" in
    let '(link_text, suffix) :=
      if isclass (obj member_info)
      then (Some ("class " +:+ short_name member_info), suffix)
      else if isfunction (obj member_info)
      then (Some (short_name member_info +:+ "(...)"), suffix)
      else if ismodule (obj member_info)
      then (Some (short_name member_info), " module")
      else (link_text, suffix) in
    let suffix :=
      if str_truthy (brief (doc member_info))
      then suffix +:+ ": " +:+ brief (doc member_info)
      else suffix in
    match link_text with
    | None => Raise (UnboundLocalError "link_text")
    | Some text =>
        Ok (parts ++ ["[`" +:+ text +:+ "`](" +:+ url member_info +:+ ")"
                        +:+ suffix;
                      nl +:+ nl],
            link_text)
    end.

(** [parts.pop()] on a non-empty list. *)
Definition pop (parts : list string) : list string :=
  removelast parts.

Definition _build_module_page (page_info : ModulePageInfo) : result string :=
  let parts := ["# Module: " +:+ mod_full_name page_info +:+ nl +:+ nl] in
  let parts :=
    if list_truthy (mod_aliases page_info)
    then parts
         ++ map (fun name => "### Module `" +:+ name +:+ "`" +:+ nl)
                (mod_aliases page_info)
         ++ [nl]
    else parts in
  let parts :=
    match mod_defined_in page_info with
    | Some defined_in => parts ++ [nl +:+ nl; defined_in]
    | None => parts
    end in
  let parts := parts ++ [docstring (mod_doc page_info)] in
  let parts := parts ++ [nl +:+ nl] in
  let parts := parts ++ ["## Members" +:+ nl +:+ nl] in
  st ← for_each member_step (mod_members page_info) (parts, None);
  let parts := st.1 in
  let parts :=
    if list_truthy (mod_members page_info) then pop parts else parts in
  Ok (join "" parts).

Definition build_md_page (page_info : PageInfo) : result string :=
  match page_info with
  | ForFunction p => Ok (_build_function_page p)
  | ForClass p => _build_class_page p
  | ForModule p => _build_module_page p
  | OtherPageInfo type_repr =>
      Raise (ValueError ("Unknown Page Info Type: " +:+ type_repr))
  end.

End pretty_docs.

(** ** parser.py: the ArgSpec resolver *)

Module parser.

(** A Python value as far as default values and bound arguments need it. *)
Inductive PyValue : Type :=
  | PyInt (z : Z)
  | PyStr (s : string)
  | PyNone.

(** [inspect.ArgSpec(args, varargs, keywords, defaults)]; [defaults] are the
    defaults of the last parameters of [args]. *)
Record ArgSpec : Type := mkArgSpec {
  args : list string;
  varargs : option string;
  keywords : option string;
  defaults : list PyValue
}.

(** A partial-binding record: pre-bound positional values, or the items of
    a mapping of pre-bound keyword values. *)
Inductive Binding : Type :=
  | Positional (values : list PyValue)
  | Keyword (items : list (string * PyValue)).

Inductive ArgSpecError : Type :=
  | OverBoundArgSpec.

(** Index of the first parameter that has a default. *)
Definition first_default_arg (spec : ArgSpec) : nat :=
  length (args spec) - length (defaults spec).

(** Position of the first occurrence of [name] ([list.index]). *)
Fixpoint index_of (name : string) (names : list string) : option nat :=
  match names with
  | [] => None
  | x :: names' =>
      if decide (x = name) then Some 0 else S <$> index_of name names'
  end.

(** Modelled from the spec: positional bindings of [parser._get_arg_spec]
    (section 4.1, first rule).  [n] bound values consume the first [n]
    names; a consumed name inside the default zone takes its default with
    it; more values than declared names is the over-binding error. *)
Definition bind_positional (n : nat) (spec : ArgSpec)
  : ArgSpecError + ArgSpec :=
  if decide (length (args spec) < n) then inl OverBoundArgSpec
  else inr {| args := drop n (args spec);
              varargs := varargs spec;
              keywords := keywords spec;
              defaults := drop (n - first_default_arg spec) (defaults spec) |}.

(** Modelled from the spec: one keyword binding of [parser._get_arg_spec]
    (section 4.1, second rule).  The named parameter is removed wherever it
    stands, with its default when it has one; a name that is no declared
    parameter leaves the signature as it is. *)
Definition bind_keyword (name : string) (spec : ArgSpec) : ArgSpec :=
  match index_of name (args spec) with
  | None => spec
  | Some i =>
      {| args := delete i (args spec);
         varargs := varargs spec;
         keywords := keywords spec;
         defaults :=
           if decide (first_default_arg spec ≤ i)
           then delete (i - first_default_arg spec) (defaults spec)
           else defaults spec |}
  end.

Definition positional_count (b : Binding) : nat :=
  match b with
  | Positional values => length values
  | Keyword _ => 0
  end.

Definition keyword_names (b : Binding) : list string :=
  match b with
  | Positional _ => []
  | Keyword items => map fst items
  end.

(** Modelled from the spec: [parser._get_arg_spec] on a declared signature
    and its partial-binding records (section 4.1): the records apply
    cumulatively, positional bindings first, then keyword bindings, in the
    order given. *)
Definition _get_arg_spec (declared : ArgSpec) (bindings : list Binding)
  : ArgSpecError + ArgSpec :=
  let step (acc : ArgSpecError + ArgSpec) (b : Binding) :=
    match acc with
    | inl e => inl e
    | inr spec => bind_positional (positional_count b) spec
    end in
  match foldl step (inr declared) bindings with
  | inl e => inl e
  | inr spec =>
      inr (foldl (fun spec name => bind_keyword name spec) spec
                 (flat_map keyword_names bindings))
  end.

(** The pairs (name, default or nothing) a signature stands for. *)
Definition with_defaults (spec : ArgSpec) : list (string * option PyValue) :=
  zip (args spec)
      (replicate (first_default_arg spec) None ++ (Some <$> defaults spec)).

(** ** parser.py: the docstring structurer *)

Definition is_newline (c : ascii) : bool :=
  bool_decide (c = ascii_of_nat 10).

Definition is_upper (c : ascii) : bool :=
  bool_decide (65 ≤ nat_of_ascii c ≤ 90).

(** A character of a name: a letter, a digit or the underscore. *)
Definition is_word (c : ascii) : bool :=
  bool_decide (65 ≤ nat_of_ascii c ≤ 90)
  || bool_decide (97 ≤ nat_of_ascii c ≤ 122)
  || bool_decide (48 ≤ nat_of_ascii c ≤ 57)
  || bool_decide (nat_of_ascii c = 95).

(** The lines of a text, each with the newline that ends it (the last line
    may have none). *)
Fixpoint split_lines (s : string) : list string :=
  match s with
  | "" => []
  | String c s' =>
      if is_newline c then String c "" :: split_lines s'
      else match split_lines s' with
           | [] => [String c ""]
           | line :: rest => String c line :: rest
           end
  end.

(** The longest prefix of name characters, and what follows it. *)
Fixpoint span_word (s : string) : string * string :=
  match s with
  | "" => ("", "")
  | String c s' =>
      if is_word c
      then let '(w, rest) := span_word s' in (String c w, rest)
      else ("", s)
  end.

(** [s] without the prefix [p], when it starts with it. *)
Fixpoint strip_prefix (p s : string) : option string :=
  match p, s with
  | "", _ => Some s
  | String a p', String b s' =>
      if decide (a = b) then strip_prefix p' s' else None
  | String _ _, "" => None
  end.

(** Modelled from the spec: the header lines of [parser.py]'s detail
    sections (section 4.2): a line consisting solely of a capitalized keyword
    followed by a colon, here with the newline that ends the line.  Gives the
    keyword. *)
Definition header_keyword (line : string) : option string :=
  match span_word line with
  | (String c w, rest) =>
      if is_upper c && bool_decide (rest = ":" +:+ nl)
      then Some (String c w) else None
  | _ => None
  end.

(** Modelled from the spec: the item lines of a detail section (section
    4.2): an indented [name: description] line, with the two-space indent of
    the docstrings of [parser_test.py].  Gives the name and the description
    (what follows the colon on the line). *)
Definition parse_item (line : string) : option (string * string) :=
  match strip_prefix "  " line with
  | Some body =>
      match span_word body with
      | (String c w, String ":" description) => Some (String c w, description)
      | _ => None
      end
  | None => None
  end.

(** [text] added to the description of the last item. *)
Fixpoint append_to_last (items : list (string * string)) (text : string)
  : list (string * string) :=
  match items with
  | [] => []
  | [(name, description)] => [(name, description +:+ text)]
  | item :: items' => item :: append_to_last items' text
  end.

(** Modelled from the spec: a line inside a detail section (section 4.2).
    An item line opens an item; any other line, indented or not (as the empty
    line that ends the description of [name] in [RELU_DOC]), continues the
    description of the last item, or the header text when no item is open
    yet. *)
Definition add_line (detail : FunctionDetail) (line : string)
  : FunctionDetail :=
  match parse_item line with
  | Some item =>
      mkFunctionDetail (keyword detail) (header detail)
                       (items detail ++ [item])
  | None =>
      match items detail with
      | [] =>
          mkFunctionDetail (keyword detail) (header detail +:+ line) []
      | _ =>
          mkFunctionDetail (keyword detail) (header detail)
                           (append_to_last (items detail) line)
      end
  end.

(** State of the scan for details: the text before the first section, the
    sections that are closed, and the open one. *)
Record DetailState : Type := mkDetailState {
  ds_text : string;
  ds_closed : list FunctionDetail;
  ds_open : option FunctionDetail
}.

Definition detail_step (st : DetailState) (line : string) : DetailState :=
  match header_keyword line with
  | Some kw =>
      mkDetailState (ds_text st)
                    (ds_closed st ++ option_list (ds_open st))
                    (Some (mkFunctionDetail kw "" []))
  | None =>
      match ds_open st with
      | None =>
          mkDetailState (ds_text st +:+ line) (ds_closed st) None
      | Some detail =>
          mkDetailState (ds_text st) (ds_closed st)
                        (Some (add_line detail line))
      end
  end.

(** Modelled from the spec: [parser._parse_function_details] (section 4.2):
    a docstring is split into the text before its first detail section and
    the detail sections, in order.  A header line is recognized by its
    format, on any line; once a section is open every line belongs to a
    section. *)
Definition _parse_function_details (docstring : string)
  : string * list FunctionDetail :=
  let st := foldl detail_step (mkDetailState "" [] None)
                  (split_lines docstring) in
  (ds_text st, ds_closed st ++ option_list (ds_open st)).

(** Modelled from the spec: [str(detail)], the serialized form of a detail
    section (section 4.2, round-trip law): the header line, the header text,
    and each item as its indented [name:] and its description. *)
Definition detail_str (detail : FunctionDetail) : string :=
  join "" ([keyword detail +:+ ":" +:+ nl; header detail]
           ++ flat_map (fun kv : string * string =>
                          ["  " +:+ kv.1 +:+ ":"; kv.2])
                       (items detail)).

(** The items of a section, serialized. *)
Definition items_str (items : list (string * string)) : string :=
  join "" (flat_map (fun kv : string * string => ["  " +:+ kv.1 +:+ ":"; kv.2])
                    items).

(** The text a state of the scan for details stands for. *)
Definition state_str (st : DetailState) : string :=
  ds_text st
  +:+ join "" (map detail_str (ds_closed st ++ option_list (ds_open st))).

(** [s.strip()] on blanks, tabs and newlines. *)
Fixpoint lstrip (s : string) : string :=
  match s with
  | String c s' => if Ascii.is_space c then lstrip s' else s
  | "" => ""
  end.

Definition strip (s : string) : string :=
  String.rev (lstrip (String.rev (lstrip s))).

(** Modelled from the spec: the opening marker of a compatibility block
    (section 4.2), a line [@compatibility(<target>)] as in the docstring of
    [test_parse_md_docstring].  Gives the target. *)
Definition compatibility_open (line : string) : option string :=
  match strip_prefix "@compatibility(" (strip line) with
  | Some body =>
      match span_word body with
      | (String c w, ")") => Some (String c w)
      | _ => None
      end
  | None => None
  end.

(** Modelled from the spec: the closing marker, a line
    [@end_compatibility]. *)
Definition compatibility_close (line : string) : bool :=
  bool_decide (strip line = "@end_compatibility").

(** State of the scan for compatibility blocks: the text outside the
    blocks, the blocks found, and the open block (its target, its opening
    line and its text so far). *)
Record CompatState : Type := mkCompatState {
  cs_text : string;
  cs_blocks : gmap string string;
  cs_open : option (string * string * string)
}.

Definition compat_step (st : CompatState) (line : string) : CompatState :=
  match cs_open st with
  | None =>
      match compatibility_open line with
      | Some target =>
          mkCompatState (cs_text st) (cs_blocks st) (Some (target, line, ""))
      | None => mkCompatState (cs_text st +:+ line) (cs_blocks st) None
      end
  | Some (target, opening, text) =>
      if compatibility_close line
      then mkCompatState (cs_text st) (<[target := text]> (cs_blocks st)) None
      else mkCompatState (cs_text st) (cs_blocks st)
                         (Some (target, opening, text +:+ line))
  end.

(** Modelled from the spec: the extraction of compatibility blocks (section
    4.2): each block goes to [compatibility[target]] and leaves the text; a
    block that is never closed stays in the text. *)
Definition extract_compatibility (docstring : string)
  : string * gmap string string :=
  let st := foldl compat_step (mkCompatState "" ∅ None)
                  (split_lines docstring) in
  match cs_open st with
  | None => (cs_text st, cs_blocks st)
  | Some (_, opening, text) => (cs_text st +:+ opening +:+ text, cs_blocks st)
  end.

(** The text before the first newline. *)
Fixpoint first_line (s : string) : string :=
  match s with
  | "" => ""
  | String c s' => if is_newline c then "" else String c (first_line s')
  end.

(** Modelled from the spec: the docstring structurer [structureDocstring]
    (section 4.2): the brief is the first line; compatibility blocks are
    taken out first, then the detail sections; [docstring] holds the
    remainder text. *)
Definition structureDocstring (raw : string) : DocInfo :=
  let '(text, blocks) := extract_compatibility raw in
  let '(remainder, details) := _parse_function_details text in
  {| brief := first_line raw;
     docstring := remainder;
     function_details := details;
     compatibility := blocks |}.

(** The text is free of compatibility blocks: no line opens one. *)
Definition no_compatibility_blocks (raw : string) : Prop :=
  Forall (fun line => compatibility_open line = None) (split_lines raw).

#[global] Instance no_compatibility_blocks_dec raw :
  Decision (no_compatibility_blocks raw).
Proof. unfold no_compatibility_blocks. apply _. Defined.

(** ** parser.py: the reference resolver *)

(** An entry of the document index: [title] and [url]. *)
Record DocEntry : Type := mkDocEntry {
  title : string;
  doc_url : string
}.

(** Modelled from the spec: the configuration of [parser.ReferenceResolver]
    (section 4.3): [duplicate_of], the document index, and the symbol index
    with what each symbol is.  How the resolver computes the path that leads
    from a page to a document is not at hand: section 4.3 words it as the
    relative path, a slash and the url, and [test_doc_replace_references]
    expects [../URL1] for the relative path [python] and the url [URL1].  The
    computation is therefore left open, as the parameter [doc_path] of the
    resolver, from the relative path and the url. *)
Record ReferenceResolver : Type := mkReferenceResolver {
  duplicate_of : gmap string string;
  doc_index : gmap string DocEntry;
  index : gmap string PyObj;
  doc_path : string → string → string
}.

Inductive ResolveError : Type :=
  | UnresolvedReference (ref : string).

(** [s] cut at the first [c]: what stands before and after it. *)
Fixpoint partition_at (c : ascii) (s : string) : option (string * string) :=
  match s with
  | "" => None
  | String a s' =>
      if decide (a = c) then Some ("", s')
      else match partition_at c s' with
           | Some (l, r) => Some (String a l, r)
           | None => None
           end
  end.

(** [s] cut at the last [c]. *)
Fixpoint rpartition_at (c : ascii) (s : string) : option (string * string) :=
  match s with
  | "" => None
  | String a s' =>
      match rpartition_at c s' with
      | Some (l, r) => Some (String a l, r)
      | None => if decide (a = c) then Some ("", s') else None
      end
  end.

(** [s.replace(a, b)] on characters. *)
Fixpoint replace_char (a b : ascii) (s : string) : string :=
  match s with
  | "" => ""
  | String c s' => String (if decide (c = a) then b else c) (replace_char a b s')
  end.

(** [parser.documentation_path]: the page of a dotted name
    ([test_documentation_path]: [test.module] is at [test/module.md]). *)
Definition documentation_path (full_name : string) : string :=
  replace_char "." "/" full_name +:+ ".md".

(** The name of a reference and its custom display text, which a [$] after
    the first character introduces (as in the tokens of
    [test_doc_replace_references]). *)
Definition split_display (ref : string) : string * option string :=
  match ref with
  | "" => ("", None)
  | String c rest =>
      match rpartition_at "$" rest with
      | Some (l, r) => (String c l, Some r)
      | None => (ref, None)
      end
  end.

(** Modelled from the spec: the link of a document reference of
    [parser.ReferenceResolver] (section 4.3): [name] is looked up in the
    document index; the text is the custom text or the title; the target is
    the path of the resolver from the relative path to the url of the
    document, and the anchor follows. *)
Definition doc_link (r : ReferenceResolver) (body : string)
    (text : option string) (relative_path_to_root : string)
  : ResolveError + string :=
  let '(name, hash_tag) :=
    match partition_at "#" body with
    | Some (name, anchor) => (name, "#" +:+ anchor)
    | None => (body, "")
    end in
  match doc_index r !! name with
  | Some entry =>
      inr ("[" +:+ default (title entry) text +:+ "]("
               +:+ doc_path r relative_path_to_root (doc_url entry)
               +:+ hash_tag +:+ ")")
  | None => inl (UnresolvedReference ("$" +:+ body))
  end.

(** [name] is in the index, as a class. *)
Definition indexed_class (r : ReferenceResolver) (name : string) : bool :=
  from_option isclass false (index r !! name).

(** Modelled from the spec: the page (with its anchor) a symbol reference
    links to (section 4.3).  The name goes through [duplicate_of] once.  An
    indexed name that is neither a class nor a module and whose parent is an
    indexed class is an anchor on the page of that class, as
    [test_replace_references] has it for [tf.reference.foo]; another indexed
    name has its own page; a name that is not indexed but whose parent is, is
    an anchor on the page of the parent. *)
Definition reference_to_path (r : ReferenceResolver) (ref_full_name : string)
  : option string :=
  let master_name := default ref_full_name (duplicate_of r !! ref_full_name) in
  match index r !! master_name with
  | Some o =>
      match rpartition_at "." master_name with
      | Some (class_name, member) =>
          if negb (isclass o || ismodule o) && indexed_class r class_name
          then Some (documentation_path class_name +:+ "#" +:+ member)
          else Some (documentation_path master_name)
      | None => Some (documentation_path master_name)
      end
  | None =>
      match rpartition_at "." master_name with
      | Some (parent, member) =>
          if bool_decide (is_Some (index r !! parent))
          then Some (documentation_path parent +:+ "#" +:+ member)
          else None
      | None => None
      end
  end.

(** Modelled from the spec: the link of a symbol reference (section 4.3):
    the display text is the custom text, or the original name between
    backticks. *)
Definition python_link (r : ReferenceResolver) (name : string)
    (text : option string) (relative_path_to_root : string)
  : ResolveError + string :=
  match reference_to_path r name with
  | Some path =>
      let shown :=
        match text with
        | Some t => t
        | None => "`" +:+ name +:+ "`"
        end in
      inr ("[" +:+ shown +:+ "](" +:+ relative_path_to_root +:+ "/"
               +:+ path +:+ ")")
  | None => inl (UnresolvedReference name)
  end.

(** Modelled from the spec: [resolveReference] on what stands between the
    braces of one token (section 4.3). *)
Definition one_ref (r : ReferenceResolver) (ref : string)
    (relative_path_to_root : string) : ResolveError + string :=
  let '(name, text) := split_display ref in
  match name with
  | String "$" body => doc_link r body text relative_path_to_root
  | _ => python_link r name text relative_path_to_root
  end.

(** Where the scan for tokens stands: in plain text, after an [@], or
    inside the braces of a token with the characters read so far. *)
Inductive ScanMode : Type :=
  | Outside
  | AfterAt
  | Inside (ref : string).

Definition char_str (c : ascii) : string := String c "".

(** One character of the scan; the output so far is the first component. *)
Definition scan_step (r : ReferenceResolver) (relative_path_to_root : string)
    (st : (ResolveError + string) * ScanMode) (c : ascii)
  : (ResolveError + string) * ScanMode :=
  match st with
  | (inl e, mode) => (inl e, mode)
  | (inr out, Outside) =>
      if decide (c = "@"%char) then (inr out, AfterAt)
      else (inr (out +:+ char_str c), Outside)
  | (inr out, AfterAt) =>
      if decide (c = "{"%char) then (inr out, Inside "")
      else if decide (c = "@"%char) then (inr (out +:+ "@"), AfterAt)
      else (inr (out +:+ "@" +:+ char_str c), Outside)
  | (inr out, Inside ref) =>
      if decide (c = "}"%char) then
        match ref with
        | "" => (inr (out +:+ "@{}"), Outside)
        | _ =>
            match one_ref r ref relative_path_to_root with
            | inr link => (inr (out +:+ link), Outside)
            | inl e => (inl e, Outside)
            end
        end
      else (inr out, Inside (ref +:+ char_str c))
  end.

Fixpoint string_foldl {S} (f : S → ascii → S) (s : string) (st : S) : S :=
  match s with
  | "" => st
  | String c s' => string_foldl f s' (f st c)
  end.

(** Modelled from the spec: [ReferenceResolver.replace_references] (section
    4.3): every token [@{<ref>}] is replaced by its link, the other text is
    passed through; a reference that resolves to nothing is an error. *)
Definition replace_references (r : ReferenceResolver) (s : string)
    (relative_path_to_root : string) : ResolveError + string :=
  match string_foldl (scan_step r relative_path_to_root) s (inr "", Outside)
  with
  | (inl e, _) => inl e
  | (inr out, Outside) => inr out
  | (inr out, AfterAt) => inr (out +:+ "@")
  | (inr out, Inside ref) => inr (out +:+ "@{" +:+ ref)
  end.

End parser.

(** ** parser_test.py: the values of the tests *)

Module parser_test.
Import parser.

(** The declared signature [(arg1, arg2, kwarg1=1, kwarg2=2)] of
    [test_argspec_for_functools_partial]. *)
Definition test_function_for_partial1 : ArgSpec :=
  {| args := ["arg1"; "arg2"; "kwarg1"; "kwarg2"];
     varargs := None;
     keywords := None;
     defaults := [PyInt 1; PyInt 2] |}.

(** The declared signature [(arg1, arg2, *my_args, **my_kwargs)]. *)
Definition test_function_for_partial2 : ArgSpec :=
  {| args := ["arg1"; "arg2"];
     varargs := Some "my_args";
     keywords := Some "my_kwargs";
     defaults := [] |}.

(** [RELU_DOC] of [parser_test.py]. *)
Definition RELU_DOC : string :=
  "Computes rectified linear: `max(features, 0)`

Args:
  features: A `Tensor`. Must be one of the following types: `float32`,
    `float64`, `int32`, `int64`, `uint8`, `int16`, `int8`, `uint16`,
    `half`.
  name: A name for the operation (optional)

Returns:
  A `Tensor`. Has the same type as `features`
".

(** The docstring of [test_function_with_fancy_docstring], as
    [inspect.getdoc] gives it. *)
Definition fancy_docstring : string :=
  "Function with a fancy docstring.

And a bunch of references: @{tf.reference}, another @{tf.reference},
    a member @{tf.reference.foo}, and a @{tf.third}.

Args:
  arg: An argument.

Raises:
  an exception

Returns:
  arg: the input, and
  arg: the input, again.

@compatibility(numpy)
NumPy has nothing as awesome as this function.
@end_compatibility

@compatibility(theano)
Theano has nothing as awesome as this function.

Check it out.
@end_compatibility".

(** The path to a document as section 4.3 words it: the relative path, a
    slash, the url. *)
Definition joined_path (relative_path_to_root url : string) : string :=
  relative_path_to_root +:+ "/" +:+ url.

(** The resolver of [test_replace_references]: [tf.reference] is the class
    [HasOneMember] and [tf.reference.foo] its method [foo].  Its document
    index is empty, and no path to a document is ever asked for. *)
Definition symbols_resolver : ReferenceResolver :=
  {| duplicate_of := {[ "tf.third" := "tf.fourth" ]};
     doc_index := ∅;
     index := <[ "tf.reference" := ObjClass ]>
              (<[ "tf.reference.foo" := ObjFunction ]>
              (<[ "tf.third" := ObjClass ]>
              (<[ "tf.fourth" := ObjClass ]> ∅)));
     doc_path := joined_path |}.

(** The resolver of [test_doc_replace_references], for a path [path] to the
    documents. *)
Definition docs_resolver (path : string → string → string)
  : ReferenceResolver :=
  {| duplicate_of := ∅;
     doc_index := <[ "doc1" := mkDocEntry "Title1" "URL1" ]>
                  (<[ "do/c2" := mkDocEntry "Two words" "somewhere/else" ]> ∅);
     index := ∅;
     doc_path := path |}.


(** The resolver of [test_replace_references] without [tf.reference.foo] in
    its index. *)
Definition symbols_resolver_without_foo : ReferenceResolver :=
  {| duplicate_of := {[ "tf.third" := "tf.fourth" ]};
     doc_index := ∅;
     index := <[ "tf.reference" := ObjClass ]>
              (<[ "tf.third" := ObjClass ]>
              (<[ "tf.fourth" := ObjClass ]> ∅));
     doc_path := joined_path |}.

End parser_test.

Import pretty_docs parser parser_test.

(** ** Text queries of the statements *)

(** [sub in s]. *)
Fixpoint str_contains (sub s : string) : bool :=
  String.prefix sub s
  || match s with
     | "" => false
     | String _ s' => str_contains sub s'
     end.

(** ** The shape of a rendered page *)

(** The parts of a class page before its member sections: title, aliases,
    source location, guides, docstring and detail sections. *)
Definition class_head_parts (page_info : ClassPageInfo) : list string :=
  ["# " +:+ cls_full_name page_info +:+ nl +:+ nl]
  ++ (if list_truthy (cls_aliases page_info)
      then map (fun name => "### `class " +:+ name +:+ "`" +:+ nl)
               (cls_aliases page_info) ++ [nl]
      else [])
  ++ match cls_defined_in page_info with
     | Some defined_in => [nl +:+ nl; defined_in]
     | None => []
     end
  ++ [cls_guides page_info;
      docstring (cls_doc page_info);
      _build_function_details (function_details (cls_doc page_info))].

(** The parts of one property when its assertion holds. *)
Definition property_parts (prop_info : MemberInfo) : list string :=
  [ h3_name prop_info;
    docstring (doc prop_info);
    _build_function_details (function_details (doc prop_info));
    nl +:+ nl ].

(** The parts of a class page between its head and its methods. *)
Definition class_middle_parts (page_info : ClassPageInfo) : list string :=
  [nl +:+ nl]
  ++ (if list_truthy (cls_classes page_info)
      then ["## Child Classes" +:+ nl]
           ++ sorted_str (map class_link (cls_classes page_info))
      else [])
  ++ (if list_truthy (cls_properties page_info)
      then ["## Properties" +:+ nl +:+ nl]
           ++ flat_map property_parts
                       (sorted_members (cls_properties page_info))
           ++ [nl +:+ nl]
      else []).

(** The parts of a class page after its methods. *)
Definition class_tail_parts (page_info : ClassPageInfo) : list string :=
  if list_truthy (cls_other_members page_info)
  then ["## Class Members" +:+ nl +:+ nl]
       ++ map h3_name (sorted_members (cls_other_members page_info))
  else [].

(** [d] has no entry. *)
Definition no_compatibility (d : DocInfo) : Prop :=
  compatibility d = ∅.

(** The parts of a module page before its member lines. *)
Definition module_head_parts (page_info : ModulePageInfo) : list string :=
  ["# Module: " +:+ mod_full_name page_info +:+ nl +:+ nl]
  ++ (if list_truthy (mod_aliases page_info)
      then map (fun name => "### Module `" +:+ name +:+ "`" +:+ nl)
               (mod_aliases page_info) ++ [nl]
      else [])
  ++ match mod_defined_in page_info with
     | Some defined_in => [nl +:+ nl; defined_in]
     | None => []
     end
  ++ [docstring (mod_doc page_info); nl +:+ nl; "## Members" +:+ nl +:+ nl].

(** The link text the [if]/[elif] chain assigns for a member, if any. *)
Definition link_text_of (member_info : MemberInfo) : option string :=
  match obj member_info with
  | ObjClass => Some ("class " +:+ short_name member_info)
  | ObjFunction => Some (short_name member_info +:+ "(...)")
  | ObjModule => Some (short_name member_info)
  | _ => None
  end.

(** What follows the link of a member: [ module] for a module, then the
    brief docstring, if there is one, after a colon. *)
Definition suffix_of (member_info : MemberInfo) : string :=
  let suffix :=
    match obj member_info with ObjModule => " module" | _ => "" end in
  if str_truthy (brief (doc member_info))
  then suffix +:+ ": " +:+ brief (doc member_info)
  else suffix.

(** The line of a linkable member, for a link text. *)
Definition link_line (text : string) (member_info : MemberInfo) : string :=
  "[`" +:+ text +:+ "`](" +:+ url member_info +:+ ")"
    +:+ suffix_of member_info.

(** The line of a member that is a constant, a class, a function or a
    module. *)
Definition member_line (member_info : MemberInfo) : string :=
  if is_link member_info
  then link_line (default "" (link_text_of member_info)) member_info
  else "Constant " +:+ short_name member_info.

(** A linkable member is a class, a function or a module. *)
Definition linkable_is_known (member_info : MemberInfo) : Prop :=
  is_link member_info = true → is_Some (link_text_of member_info).

(** [line] is a line for [member_info]: the constant line of a member that
    is no link, or a link to its url with its suffix. *)
Definition line_of (member_info : MemberInfo) (line : string) : Prop :=
  if is_link member_info
  then ∃ text, line = link_line text member_info
  else line = "Constant " +:+ short_name member_info.

(** [page_info] with [methods] filed as its methods. *)
Definition set_methods (page_info : ClassPageInfo)
    (methods : list MemberInfo) : ClassPageInfo :=
  {| cls_full_name := cls_full_name page_info;
     cls_aliases := cls_aliases page_info;
     cls_defined_in := cls_defined_in page_info;
     cls_guides := cls_guides page_info;
     cls_doc := cls_doc page_info;
     cls_classes := cls_classes page_info;
     cls_properties := cls_properties page_info;
     cls_methods := methods;
     cls_other_members := cls_other_members page_info |}.

(** ** Sample pages *)

Definition plain_doc (text : string) : DocInfo :=
  {| brief := text; docstring := text; function_details := [];
     compatibility := ∅ |}.

(** A docstring with a [numpy] compatibility block. *)
Definition numpy_doc : DocInfo :=
  {| brief := "Docstring."; docstring := "Docstring.";
     function_details := [];
     compatibility := {[ "numpy" := "Not in NumPy." ]} |}.

Definition a_method : MemberInfo :=
  {| short_name := "a_method"; url := "TestClass.md#a_method";
     obj := ObjFunction; doc := numpy_doc; signature := "(arg='default')";
     is_link := true |}.

Definition b_method : MemberInfo :=
  {| short_name := "b_method"; url := "TestClass.md#b_method";
     obj := ObjFunction; doc := plain_doc "Docstring for b."; signature := "()";
     is_link := true |}.

Definition a_property : MemberInfo :=
  {| short_name := "a_property"; url := "TestClass.md#a_property";
     obj := ObjProperty; doc := plain_doc "Docstring for a property.";
     signature := ""; is_link := false |}.

(** A property whose docstring has a compatibility block. *)
Definition numpy_property : MemberInfo :=
  {| short_name := "a_property"; url := "TestClass.md#a_property";
     obj := ObjProperty; doc := numpy_doc; signature := ""; is_link := false |}.

(** A class page with the methods filed as [b_method], [a_method]. *)
Definition TestClass_page : ClassPageInfo :=
  {| cls_full_name := "TestClass"; cls_aliases := [];
     cls_defined_in := None; cls_guides := "";
     cls_doc := plain_doc "Docstring for TestClass itself.";
     cls_classes := []; cls_properties := [a_property];
     cls_methods := [b_method; a_method]; cls_other_members := [] |}.

(** The same class with a compatibility block in its own docstring. *)
Definition numpy_class_page : ClassPageInfo :=
  {| cls_full_name := "TestClass"; cls_aliases := [];
     cls_defined_in := None; cls_guides := "";
     cls_doc := numpy_doc;
     cls_classes := []; cls_properties := [];
     cls_methods := []; cls_other_members := [] |}.

(** The same class with a compatibility block in the docstring of a
    property. *)
Definition numpy_property_page : ClassPageInfo :=
  {| cls_full_name := "TestClass"; cls_aliases := [];
     cls_defined_in := None; cls_guides := "";
     cls_doc := plain_doc "Docstring for TestClass itself.";
     cls_classes := []; cls_properties := [numpy_property];
     cls_methods := [a_method]; cls_other_members := [] |}.

Definition TestClass_member : MemberInfo :=
  {| short_name := "TestClass"; url := "TestModule/TestClass.md";
     obj := ObjClass; doc := plain_doc "Docstring for TestClass itself.";
     signature := ""; is_link := true |}.

Definition test_function_member : MemberInfo :=
  {| short_name := "test_function"; url := "TestModule/test_function.md";
     obj := ObjFunction; doc := plain_doc ""; signature := "(unused_arg)";
     is_link := true |}.

Definition constant_member : MemberInfo :=
  {| short_name := "CONSTANT"; url := ""; obj := ObjOther;
     doc := plain_doc ""; signature := ""; is_link := false |}.

(** A linkable member that is neither a class, a function nor a module. *)
Definition odd_member : MemberInfo :=
  {| short_name := "odd"; url := "TestModule/odd.md"; obj := ObjOther;
     doc := plain_doc ""; signature := ""; is_link := true |}.

Definition module_page_of (members : list MemberInfo) : ModulePageInfo :=
  {| mod_full_name := "TestModule"; mod_aliases := [];
     mod_defined_in := None; mod_doc := plain_doc "Tests.";
     mod_members := members |}.

(** [test_function] stands before [TestClass] and the constant comes
    between them: an order that is not the sorted one. *)
Definition TestModule_page : ModulePageInfo :=
  module_page_of [test_function_member; constant_member; TestClass_member].

(** The odd member comes after a class. *)
Definition stale_module_page : ModulePageInfo :=
  module_page_of [TestClass_member; odd_member].

(** The odd member is the first linkable member. *)
Definition unbound_module_page : ModulePageInfo :=
  module_page_of [constant_member; odd_member; TestClass_member].

(** [c in s]. *)
Fixpoint contains_char (c : ascii) (s : string) : bool :=
  match s with
  | "" => false
  | String a s' => bool_decide (a = c) || contains_char c s'
  end.

(** The token [@{<ref>}]. *)
Definition token (ref : string) : string := "@{" +:+ ref +:+ "}".


(** The link of a symbol reference as the specification words it: a name
    whose canonical name is indexed links to the page of that name; a name
    that is not indexed but whose parent is, links to the page of the parent
    with the last component as anchor. *)
Definition spec_symbol_link (r : ReferenceResolver) (ref : string)
    (relative_path_to_root : string) : option string :=
  let master_name := default ref (duplicate_of r !! ref) in
  let shown := "`" +:+ ref +:+ "`" in
  match index r !! master_name with
  | Some _ =>
      Some ("[" +:+ shown +:+ "](" +:+ relative_path_to_root +:+ "/"
                +:+ documentation_path master_name +:+ ")")
  | None =>
      match rpartition_at "." master_name with
      | Some (parent, member) =>
          if bool_decide (is_Some (index r !! parent))
          then Some ("[" +:+ shown +:+ "](" +:+ relative_path_to_root +:+ "/"
                         +:+ documentation_path parent +:+ "#" +:+ member
                         +:+ ")")
          else None
      | None => None
      end
  end.


(** ** More shapes for the statements about the renderer *)

(** The block of one compatibility target, as [_build_compatibility] formats
    it. *)
Definition compatibility_block (key value : string) : string :=
  nl +:+ nl +:+ "#### " +:+ key +:+ " compatibility" +:+ nl +:+ value +:+ nl.

(** [page_info] with its four collections of members filed anew. *)
Definition refile (page_info : ClassPageInfo)
    (classes properties methods other_members : list MemberInfo)
  : ClassPageInfo :=
  {| cls_full_name := cls_full_name page_info;
     cls_aliases := cls_aliases page_info;
     cls_defined_in := cls_defined_in page_info;
     cls_guides := cls_guides page_info;
     cls_doc := cls_doc page_info;
     cls_classes := classes;
     cls_properties := properties;
     cls_methods := methods;
     cls_other_members := other_members |}.

(** [page_info] with [members] as its members. *)
Definition set_members (page_info : ModulePageInfo)
    (members : list MemberInfo) : ModulePageInfo :=
  {| mod_full_name := mod_full_name page_info;
     mod_aliases := mod_aliases page_info;
     mod_defined_in := mod_defined_in page_info;
     mod_doc := mod_doc page_info;
     mod_members := members |}.

(** The value of [link_text] after the loop of [_build_module_page] has gone
    over [member_info]: a linkable class, function or module assigns it, any
    other member leaves it as it was. *)
Definition carry_text (link_text : option string) (member_info : MemberInfo)
  : option string :=
  if is_link member_info
  then match link_text_of member_info with
       | Some text => Some text
       | None => link_text
       end
  else link_text.

(** The value of [link_text] after the loop has gone over [members]. *)
Definition carried_text (link_text : option string)
    (members : list MemberInfo) : option string :=
  foldl carry_text link_text members.

(** The lines of [members] when the loop starts with [link_text], or nothing
    when a line needs a link text that is not bound. *)
Fixpoint carried_lines (link_text : option string)
    (members : list MemberInfo) : option (list string) :=
  match members with
  | [] => Some []
  | member_info :: members' =>
      if is_link member_info then
        match carry_text link_text member_info with
        | Some text =>
            cons (link_line text member_info)
              <$> carried_lines (Some text) members'
        | None => None
        end
      else
        cons ("Constant " +:+ short_name member_info)
          <$> carried_lines link_text members'
  end.

(** The first member that is a link. *)
Definition first_link (members : list MemberInfo) : option MemberInfo :=
  List.find is_link members.

(** A function page whose docstring has the [numpy] block. *)
Definition numpy_function_page : FunctionPageInfo :=
  {| fn_full_name := "test_function"; fn_signature := "(unused_arg)";
     fn_aliases := []; fn_defined_in := None; fn_guides := "";
     fn_doc := numpy_doc |}.

(** A member with the short name of [member_info] and nothing else. *)
Definition name_only (member_info : MemberInfo) : MemberInfo :=
  {| short_name := short_name member_info; url := ""; obj := ObjOther;
     doc := plain_doc ""; signature := ""; is_link := false |}.

(** A class member of [TestClass_page], and the same name with another
    docstring and url. *)
Definition CLASS_MEMBER : MemberInfo :=
  {| short_name := "CLASS_MEMBER"; url := ""; obj := ObjOther;
     doc := plain_doc "a class member"; signature := ""; is_link := false |}.

Definition CLASS_MEMBER_elsewhere : MemberInfo :=
  {| short_name := "CLASS_MEMBER"; url := "TestClass.md#CLASS_MEMBER";
     obj := ObjOther; doc := numpy_doc; signature := ""; is_link := true |}.

Definition ChildClass : MemberInfo :=
  {| short_name := "ChildClass"; url := "TestClass/ChildClass.md";
     obj := ObjClass; doc := plain_doc "Docstring for a child class.";
     signature := ""; is_link := true |}.

Definition OtherChild : MemberInfo :=
  {| short_name := "OtherChild"; url := "TestClass/OtherChild.md";
     obj := ObjClass; doc := plain_doc ""; signature := ""; is_link := true |}.

(** A class page with two members in each collection. *)
Definition full_class_page : ClassPageInfo :=
  {| cls_full_name := "TestClass"; cls_aliases := ["AliasClass"];
     cls_defined_in := Some "Defined in parser_test.py."; cls_guides := "";
     cls_doc := plain_doc "Docstring for TestClass itself.";
     cls_classes := [OtherChild; ChildClass];
     cls_properties := [a_property];
     cls_methods := [b_method; a_method];
     cls_other_members := [CLASS_MEMBER] |}.

(** ** The text of the sections, written out *)

(** The detail sections as text: the sections are separated by one newline;
    a section is its heading, an empty line, its header text and its items,
    each item as a bullet with the name in code font inside an HTML bold
    element. *)
Definition rendered_details (details : list FunctionDetail) : string :=
  join nl
    (map (fun detail =>
            "#### " +:+ keyword detail +:+ ":" +:+ nl +:+ nl
              +:+ header detail
              +:+ foldr (fun kv rest =>
                           "* <b>`" +:+ kv.1 +:+ "`</b>:" +:+ kv.2 +:+ rest)
                        "" (items detail))
         details).

(** The order of two blocks: that of their targets. *)
Definition block_le (a b : string * string) : Prop := String.le a.1 b.1.

#[global] Instance block_le_dec : RelDecision block_le.
Proof. intros a b. unfold block_le. apply _. Defined.

(** A list of blocks (target and text) as text: each block is an empty
    line, the heading of the target and the text of the block on the next
    line. *)
Definition blocks_text (blocks : list (string * string)) : string :=
  join ""
    (map (fun kv : string * string =>
            nl +:+ nl +:+ "#### " +:+ kv.1 +:+ " compatibility" +:+ nl
               +:+ kv.2 +:+ nl)
         blocks).

(** The compatibility blocks as text: the entries of the mapping in the
    order of their targets. *)
Definition rendered_compatibility (compatibility : gmap string string)
  : string :=
  blocks_text (merge_sort block_le (map_to_list compatibility)).

(** The block of a method as text: the heading with the anchor, the name and
    the signature, the docstring, the detail sections, the compatibility
    blocks and an empty line. *)
Definition method_block (method_info : MemberInfo) : string :=
  "<h3 id=" +:+ dq +:+ short_name method_info +:+ dq +:+ "><code>"
    +:+ short_name method_info +:+ signature method_info
    +:+ "</code></h3>" +:+ nl +:+ nl
    +:+ docstring (doc method_info)
    +:+ rendered_details (function_details (doc method_info))
    +:+ rendered_compatibility (compatibility (doc method_info))
    +:+ nl +:+ nl.

(** [d] with [details] as its detail sections. *)
Definition set_details (d : DocInfo) (details : list FunctionDetail)
  : DocInfo :=
  {| brief := brief d; docstring := docstring d;
     function_details := details; compatibility := compatibility d |}.

(** [page_info] with [details] as the detail sections of its docstring. *)
Definition set_module_details (page_info : ModulePageInfo)
    (details : list FunctionDetail) : ModulePageInfo :=
  {| mod_full_name := mod_full_name page_info;
     mod_aliases := mod_aliases page_info;
     mod_defined_in := mod_defined_in page_info;
     mod_doc := set_details (mod_doc page_info) details;
     mod_members := mod_members page_info |}.

(** Two detail sections, [Args] with one item and [Returns]. *)
Definition sample_details : list FunctionDetail :=
  [ mkFunctionDetail "Args" "" [("x", " d")];
    mkFunctionDetail "Returns" "  y" [] ].

(** A method and a property with detail sections, and their class. *)
Definition detailed_method : MemberInfo :=
  {| short_name := "a_method"; url := "TestClass.md#a_method";
     obj := ObjFunction;
     doc := set_details (plain_doc "Docstring for a method.") sample_details;
     signature := "(x)"; is_link := true |}.

Definition detailed_property : MemberInfo :=
  {| short_name := "a_property"; url := "TestClass.md#a_property";
     obj := ObjProperty;
     doc := set_details (plain_doc "Docstring for a property.")
                        sample_details;
     signature := ""; is_link := false |}.

Definition detailed_class_page : ClassPageInfo :=
  {| cls_full_name := "TestClass"; cls_aliases := [];
     cls_defined_in := None; cls_guides := "";
     cls_doc := set_details (plain_doc "Docstring for TestClass itself.")
                            sample_details;
     cls_classes := []; cls_properties := [detailed_property];
     cls_methods := [detailed_method]; cls_other_members := [] |}.

(** The page of [TestClass_page]. *)
Definition TestClass_page_md : string :=
  "# TestClass" +:+ nl +:+ nl +:+ "Docstring for TestClass itself."
    +:+ nl +:+ nl +:+ "## Properties" +:+ nl +:+ nl
    +:+ "<h3 id=" +:+ dq +:+ "a_property" +:+ dq
    +:+ "><code>a_property</code></h3>" +:+ nl +:+ nl
    +:+ "Docstring for a property." +:+ nl +:+ nl +:+ nl +:+ nl
    +:+ "## Methods" +:+ nl +:+ nl
    +:+ "<h3 id=" +:+ dq +:+ "a_method" +:+ dq
    +:+ "><code>a_method(arg='default')</code></h3>" +:+ nl +:+ nl
    +:+ "Docstring." +:+ nl +:+ nl +:+ "#### numpy compatibility" +:+ nl
    +:+ "Not in NumPy." +:+ nl +:+ nl +:+ nl
    +:+ "<h3 id=" +:+ dq +:+ "b_method" +:+ dq
    +:+ "><code>b_method()</code></h3>" +:+ nl +:+ nl
    +:+ "Docstring for b." +:+ nl +:+ nl +:+ nl +:+ nl.

(** * Properties *)

(** ** Strings and joins *)

Lemma app_cons c s1 s2 : String c s1 +:+ s2 = String c (s1 +:+ s2).
Proof. reflexivity. Qed.

Lemma app_empty_l s : "" +:+ s = s.
Proof. reflexivity. Qed.

Lemma app_empty_r s : s +:+ "" = s.
Proof. induction s as [|c s IH]; [done|]. by rewrite app_cons, IH. Qed.

Lemma app_assoc_str s1 s2 s3 : (s1 +:+ s2) +:+ s3 = s1 +:+ (s2 +:+ s3).
Proof.
  induction s1 as [|c s1 IH]; [done|]. by rewrite !app_cons, IH.
Qed.

Lemma join_cons x xs : join "" (x :: xs) = x +:+ join "" xs.
Proof. destruct xs; [by rewrite app_empty_r|done]. Qed.

Lemma join_app xs ys : join "" (xs ++ ys) = join "" xs +:+ join "" ys.
Proof.
  induction xs as [|x xs IH]; [done|].
  change ((x :: xs) ++ ys) with (x :: (xs ++ ys)).
  by rewrite !join_cons, IH, app_assoc_str.
Qed.

Lemma join_sep_cons sep x y ys :
  join sep (x :: y :: ys) = x +:+ sep +:+ join sep (y :: ys).
Proof. reflexivity. Qed.

Create Rewrite HintDb strs.
#[local] Hint Rewrite app_empty_l app_empty_r app_assoc_str join_cons
  join_app : strs.

Ltac strs := autorewrite with strs; try reflexivity.

(** ** The renderer: detail sections and compatibility blocks *)

Lemma detail_md_unfold detail :
  detail_md detail
  = "#### " +:+ keyword detail +:+ ":" +:+ nl +:+ nl +:+ header detail
    +:+ foldr (fun kv rest => "* <b>`" +:+ kv.1 +:+ "`</b>:" +:+ kv.2 +:+ rest)
              "" (items detail).
Proof.
  unfold detail_md. rewrite join_app. strs. do 6 f_equal.
  induction (items detail) as [|kv kvs IH]; [done|].
  cbn [map foldr]. rewrite join_cons, IH. unfold detail_item_md. by strs.
Qed.

Lemma build_function_details_text details :
  _build_function_details details = rendered_details details.
Proof.
  unfold _build_function_details, rendered_details. f_equal.
  apply map_ext. intros detail. apply detail_md_unfold.
Qed.

(** C5, as stated, fails: for an [Args] section with the item [x], the
    rendered text has no bullet [* **x**: d]; the bullet is
    [* <b>`x`</b>: d]. *)
Lemma function_details_bullet_is_html_bold :
  str_contains "* **x**: d"
    (_build_function_details [mkFunctionDetail "Args" "" [("x", " d")]])
  = false
  ∧ _build_function_details [mkFunctionDetail "Args" "" [("x", " d")]]
    = "#### Args:" +:+ nl +:+ nl +:+ "* <b>`x`</b>: d".
Proof. split; reflexivity. Qed.

(** The detail sections of [RELU_DOC], rendered. *)
Example relu_details_rendered :
  _build_function_details (function_details (structureDocstring RELU_DOC))
  = "#### Args:

* <b>`features`</b>: A `Tensor`. Must be one of the following types: `float32`,
    `float64`, `int32`, `int64`, `uint8`, `int16`, `int8`, `uint16`,
    `half`.
* <b>`name`</b>: A name for the operation (optional)


#### Returns:

  A `Tensor`. Has the same type as `features`
".
Proof. by vm_compute. Qed.

Lemma sorted_str_sorted xs : StronglySorted String.le (sorted_str xs).
Proof. apply StronglySorted_merge_sort; apply _. Qed.

Lemma sorted_str_perm xs : sorted_str xs ≡ₚ xs.
Proof. apply merge_sort_Permutation. Qed.

Lemma map_lookup_items (m : gmap string string) :
  map (fun k => (k, default "" (m !! k))) (map fst (map_to_list m))
  = map_to_list m.
Proof.
  rewrite map_map. rewrite <- (map_id (map_to_list m)) at 2.
  apply map_ext_in. intros [k v] Hin.
  apply list_elem_of_In, elem_of_map_to_list in Hin. cbn. by rewrite Hin.
Qed.

(** C6: [_build_compatibility] emits the blocks of the mapping, each once,
    in the order of their target names; each block is the heading
    [#### <target> compatibility] after an empty line, then the text of the
    block on the next line; the empty mapping gives the empty text. *)
Theorem compatibility_rendering (compatibility : gmap string string) :
  (∃ blocks : list (string * string),
     blocks ≡ₚ map_to_list compatibility
     ∧ StronglySorted (fun a b => String.le a.1 b.1) blocks
     ∧ _build_compatibility compatibility
       = join "" (map (fun kv : string * string =>
                         nl +:+ nl +:+ "#### " +:+ kv.1 +:+ " compatibility"
                            +:+ nl +:+ kv.2 +:+ nl)
                      blocks))
  ∧ _build_compatibility ∅ = "".
Proof.
  split; [|reflexivity].
  exists (map (fun k => (k, default "" (compatibility !! k)))
              (sorted_keys compatibility)).
  split; [|split].
  - rewrite <- (map_lookup_items compatibility).
    apply Permutation_map, sorted_str_perm.
  - apply (StronglySorted_fmap _ String.le); [done|].
    apply sorted_str_sorted.
  - unfold _build_compatibility. by rewrite map_map.
Qed.

(** The blocks [theano] and [numpy] come out with [numpy] first. *)
Example build_compatibility_two_blocks :
  _build_compatibility
    (<[ "theano" := "Not in Theano." ]> {[ "numpy" := "Not in NumPy." ]})
  = nl +:+ nl +:+ "#### numpy compatibility" +:+ nl +:+ "Not in NumPy." +:+ nl
    +:+ nl +:+ nl +:+ "#### theano compatibility" +:+ nl
    +:+ "Not in Theano." +:+ nl.
Proof. by vm_compute. Qed.

(** ** The renderer: class pages *)

Lemma dict_truthy_false {V} (d : gmap string V) :
  dict_truthy d = false ↔ d = ∅.
Proof.
  unfold dict_truthy. rewrite <- map_to_list_empty_iff.
  destruct (map_to_list d); naive_solver.
Qed.

Lemma dict_truthy_true {V} (d : gmap string V) :
  dict_truthy d = true ↔ d ≠ ∅.
Proof.
  rewrite <- dict_truthy_false. destruct (dict_truthy d); naive_solver.
Qed.

Lemma property_step_ok parts prop_info :
  no_compatibility (doc prop_info) →
  property_step parts prop_info = Ok (parts ++ property_parts prop_info).
Proof.
  intros H%dict_truthy_false. unfold property_step. rewrite H. cbn.
  by rewrite <- !app_assoc.
Qed.

Lemma property_step_raise parts prop_info :
  compatibility (doc prop_info) ≠ ∅ →
  property_step parts prop_info = Raise AssertionError.
Proof.
  intros H%dict_truthy_true. unfold property_step. by rewrite H.
Qed.

Lemma properties_loop_ok props parts :
  Forall (fun prop_info => no_compatibility (doc prop_info)) props →
  for_each property_step props parts
  = Ok (parts ++ flat_map property_parts props).
Proof.
  intros H. revert parts.
  induction H as [|prop_info props Hp _ IH]; intros parts; cbn [for_each].
  - by rewrite app_nil_r.
  - rewrite property_step_ok by done. cbn. rewrite IH.
    by rewrite <- app_assoc.
Qed.

Lemma properties_loop_raise props parts prop_info :
  prop_info ∈ props →
  compatibility (doc prop_info) ≠ ∅ →
  for_each property_step props parts = Raise AssertionError.
Proof.
  intros Hin Hbad. revert parts.
  induction Hin as [prop_info props|prop_info other props _ IH];
    intros parts; cbn [for_each].
  - by rewrite property_step_raise.
  - destruct (decide (compatibility (doc other) = ∅)) as [Hok|Hne].
    + rewrite property_step_ok by done. cbn. by apply IH.
    + by rewrite property_step_raise.
Qed.

Lemma sorted_members_perm xs : sorted_members xs ≡ₚ xs.
Proof. apply merge_sort_Permutation. Qed.

Lemma list_truthy_elem {A} (x : A) xs : x ∈ xs → list_truthy xs = true.
Proof. by destruct 1. Qed.

Lemma py_assert_ok {B} (k : unit → result B) :
  (py_assert true ≫= k) = k tt.
Proof. reflexivity. Qed.

Lemma class_page_ok page_info :
  no_compatibility (cls_doc page_info) →
  Forall (fun prop_info => no_compatibility (doc prop_info))
         (cls_properties page_info) →
  _build_class_page page_info
  = Ok (join "" (class_head_parts page_info
                 ++ class_middle_parts page_info
                 ++ methods_section (cls_methods page_info)
                 ++ class_tail_parts page_info)).
Proof.
  intros Hdoc%dict_truthy_false Hprops.
  unfold _build_class_page, properties_section. cbv zeta.
  rewrite Hdoc. cbn [negb]. rewrite py_assert_ok.
  unfold class_head_parts, class_middle_parts, class_tail_parts.
  destruct (list_truthy (cls_properties page_info)).
  - rewrite properties_loop_ok
      by (by rewrite (sorted_members_perm (cls_properties page_info))).
    cbn [mbind result_bind]. do 2 f_equal.
    destruct (list_truthy (cls_aliases page_info)),
      (cls_defined_in page_info), (list_truthy (cls_classes page_info)),
      (list_truthy (cls_other_members page_info));
      by rewrite <- ?app_assoc, ?app_nil_r.
  - cbn [mbind result_bind]. do 2 f_equal.
    destruct (list_truthy (cls_aliases page_info)),
      (cls_defined_in page_info), (list_truthy (cls_classes page_info)),
      (list_truthy (cls_other_members page_info));
      by rewrite <- ?app_assoc, ?app_nil_r.
Qed.

Lemma class_page_raise page_info :
  compatibility (cls_doc page_info) ≠ ∅
  ∨ (∃ prop_info, prop_info ∈ cls_properties page_info
                  ∧ compatibility (doc prop_info) ≠ ∅) →
  _build_class_page page_info = Raise AssertionError.
Proof.
  intros H. unfold _build_class_page. cbv zeta.
  destruct (decide (compatibility (cls_doc page_info) = ∅)) as [Hdoc|Hdoc].
  - destruct H as [?|(prop_info & Hin & Hbad)]; [done|].
    apply dict_truthy_false in Hdoc. rewrite Hdoc. cbn [negb].
    rewrite py_assert_ok. unfold properties_section.
    rewrite (list_truthy_elem _ _ Hin).
    rewrite (properties_loop_raise _ _ prop_info); [done| |done].
    by rewrite (sorted_members_perm (cls_properties page_info)).
  - apply dict_truthy_true in Hdoc. by rewrite Hdoc.
Qed.

(** ** The renderer: module pages *)

Lemma for_each_app {A S} (body : S → A → result S) xs ys s :
  for_each body (xs ++ ys) s = (for_each body xs s ≫= for_each body ys).
Proof.
  revert s. induction xs as [|x xs IH]; intros s; [done|].
  cbn [app for_each]. destruct (body s x); [apply IH|done].
Qed.

Lemma member_step_constant parts link_text member_info :
  is_link member_info = false →
  member_step (parts, link_text) member_info
  = Ok (parts ++ ["Constant " +:+ short_name member_info; nl +:+ nl],
        link_text).
Proof. intros H. unfold member_step. by rewrite H. Qed.

Lemma member_step_known parts link_text member_info text :
  is_link member_info = true →
  link_text_of member_info = Some text →
  member_step (parts, link_text) member_info
  = Ok (parts ++ [link_line text member_info; nl +:+ nl], Some text).
Proof.
  intros Hl Ht. unfold member_step, link_line, suffix_of, link_text_of in *.
  rewrite Hl. cbn [negb].
  destruct (obj member_info); simplify_eq/=;
    by destruct (str_truthy (brief (doc member_info))).
Qed.

Lemma member_step_unknown parts link_text member_info :
  is_link member_info = true →
  link_text_of member_info = None →
  member_step (parts, link_text) member_info
  = match link_text with
    | Some text =>
        Ok (parts ++ [link_line text member_info; nl +:+ nl], link_text)
    | None => Raise (UnboundLocalError "link_text")
    end.
Proof.
  intros Hl Ht. unfold member_step, link_line, suffix_of, link_text_of in *.
  rewrite Hl. cbn [negb].
  destruct (obj member_info); simplify_eq/=;
    by destruct (str_truthy (brief (doc member_info))), link_text.
Qed.

(** With every linkable member of a known kind the loop runs through and
    appends the line of each member and a separator. *)
Lemma members_loop_known members parts link_text :
  Forall linkable_is_known members →
  ∃ link_text',
    for_each member_step members (parts, link_text)
    = Ok (parts ++ flat_map (fun member_info =>
                               [member_line member_info; nl +:+ nl])
                            members,
          link_text').
Proof.
  intros H. revert parts link_text.
  induction H as [|member_info members Hk _ IH]; intros parts link_text.
  - exists link_text. cbn. by rewrite app_nil_r.
  - cbn [for_each flat_map]. unfold member_line at 1.
    destruct (is_link member_info) eqn:Hl.
    + destruct (Hk Hl) as [text Ht].
      rewrite (member_step_known _ _ _ text) by done.
      cbn [mbind result_bind]. rewrite Ht. cbn [default].
      destruct (IH (parts ++ [link_line text member_info; nl +:+ nl])
                   (Some text)) as [lt' ->].
      exists lt'. by rewrite <- app_assoc.
    + rewrite member_step_constant by done. cbn [mbind result_bind].
      destruct (IH (parts ++ ["Constant " +:+ short_name member_info;
                              nl +:+ nl]) link_text) as [lt' ->].
      exists lt'. by rewrite <- app_assoc.
Qed.

(** Whenever the loop runs through, it has appended one line per member, in
    the order of the members, each followed by a separator. *)
Lemma members_loop_lines members parts link_text parts' link_text' :
  for_each member_step members (parts, link_text) = Ok (parts', link_text') →
  ∃ lines,
    Forall2 line_of members lines
    ∧ parts' = parts ++ flat_map (fun line => [line; nl +:+ nl]) lines.
Proof.
  revert parts link_text.
  induction members as [|member_info members IH]; intros parts link_text H.
  - cbn in H. simplify_eq. exists []. split; [constructor|].
    by rewrite app_nil_r.
  - cbn [for_each] in H.
    destruct (is_link member_info) eqn:Hl.
    + destruct (link_text_of member_info) as [text|] eqn:Ht.
      * rewrite (member_step_known _ _ _ text) in H by done.
        cbn [mbind result_bind] in H.
        apply IH in H as (lines & Hlines & ->).
        exists (link_line text member_info :: lines). split.
        -- constructor; [|done]. unfold line_of. rewrite Hl. by exists text.
        -- by rewrite <- app_assoc.
      * rewrite member_step_unknown in H by done.
        destruct link_text as [text|]; [|done].
        cbn [mbind result_bind] in H.
        apply IH in H as (lines & Hlines & ->).
        exists (link_line text member_info :: lines). split.
        -- constructor; [|done]. unfold line_of. rewrite Hl. by exists text.
        -- by rewrite <- app_assoc.
    + rewrite member_step_constant in H by done.
      cbn [mbind result_bind] in H.
      apply IH in H as (lines & Hlines & ->).
      exists (("Constant " +:+ short_name member_info) :: lines). split.
      * constructor; [|done]. unfold line_of. by rewrite Hl.
      * by rewrite <- app_assoc.
Qed.

Lemma join_pop_lines sep parts lines :
  lines ≠ [] →
  join "" (pop (parts ++ flat_map (fun line => [line; sep]) lines))
  = join "" parts +:+ join sep lines.
Proof.
  intros Hne. unfold pop. rewrite removelast_app by (by destruct lines).
  rewrite join_app. f_equal. clear parts.
  induction lines as [|line lines IH]; [done|].
  destruct lines as [|line' lines]; [done|].
  rewrite join_sep_cons, <- IH by done.
  cbn [flat_map app removelast]. by rewrite !join_cons.
Qed.

Lemma module_page_unfold page_info :
  _build_module_page page_info
  = (st ← for_each member_step (mod_members page_info)
                   (module_head_parts page_info, None);
     Ok (join "" (if list_truthy (mod_members page_info)
                  then pop st.1 else st.1))).
Proof.
  unfold _build_module_page, module_head_parts. cbv zeta.
  by destruct (list_truthy (mod_aliases page_info)),
    (mod_defined_in page_info); rewrite <- ?app_assoc, ?app_nil_r.
Qed.

Lemma module_page_ok page_info :
  Forall linkable_is_known (mod_members page_info) →
  _build_module_page page_info
  = Ok (join "" (module_head_parts page_info)
        +:+ join (nl +:+ nl) (map member_line (mod_members page_info))).
Proof.
  intros H. rewrite module_page_unfold.
  destruct (members_loop_known _ (module_head_parts page_info) None H)
    as [lt ->].
  cbn [mbind result_bind fst]. f_equal.
  destruct (mod_members page_info) as [|member_info members] eqn:Hm.
  - cbn. by rewrite app_nil_r, app_empty_r.
  - cbn [list_truthy]. rewrite <- join_pop_lines by done. do 3 f_equal.
    generalize (member_info :: members). intros ms.
    induction ms as [|m ms IH]; [done|]. cbn. by rewrite IH.
Qed.

Lemma module_page_lines page_info md :
  _build_module_page page_info = Ok md →
  ∃ lines,
    Forall2 line_of (mod_members page_info) lines
    ∧ md = join "" (module_head_parts page_info)
           +:+ join (nl +:+ nl) lines.
Proof.
  rewrite module_page_unfold. intros H.
  destruct (for_each member_step (mod_members page_info)
                     (module_head_parts page_info, None))
    as [[parts' lt]|] eqn:Hloop; [|done].
  cbn [mbind result_bind fst] in H. simplify_eq.
  apply members_loop_lines in Hloop as (lines & Hlines & ->).
  exists lines. split; [done|].
  destruct Hlines as [|member_info line members lines _ _].
  - cbn. by rewrite app_nil_r, app_empty_r.
  - cbn [list_truthy]. by rewrite join_pop_lines.
Qed.

Lemma constants_loop members parts link_text :
  Forall (fun member_info => is_link member_info = false) members →
  ∃ parts', for_each member_step members (parts, link_text)
            = Ok (parts', link_text).
Proof.
  intros H. revert parts.
  induction H as [|member_info members Hl _ IH]; intros parts; [by eexists|].
  cbn [for_each]. rewrite member_step_constant by done.
  cbn [mbind result_bind]. apply IH.
Qed.

Lemma module_page_unbound page_info before member_info after :
  mod_members page_info = before ++ member_info :: after →
  Forall (fun m => is_link m = false) before →
  is_link member_info = true →
  link_text_of member_info = None →
  _build_module_page page_info = Raise (UnboundLocalError "link_text").
Proof.
  intros Hm Hbefore Hl Ht. rewrite module_page_unfold, Hm, for_each_app.
  destruct (constants_loop before (module_head_parts page_info) None Hbefore)
    as [parts' ->].
  cbn [mbind result_bind for_each].
  by rewrite member_step_unknown.
Qed.

(** ** The renderer: order of the listings *)

#[local] Instance member_le_trans : Transitive member_le.
Proof. intros a b c. unfold member_le. apply transitivity. Qed.

#[local] Instance member_le_total : Total member_le.
Proof. intros a b. unfold member_le. apply total, _. Qed.

Lemma sorted_members_sorted xs : StronglySorted member_le (sorted_members xs).
Proof. apply StronglySorted_merge_sort; apply _. Qed.

Lemma NoDup_map_inj {A B} (f : A → B) (l : list A) x y :
  NoDup (map f l) → x ∈ l → y ∈ l → f x = f y → x = y.
Proof.
  induction l as [|a l IH]; intros Hnd Hx Hy Hf; [by inv Hx|].
  cbn in Hnd. apply NoDup_cons in Hnd as [Hna Hnd].
  assert (∀ z, z ∈ l → f z ≠ f a) as Hfresh.
  { intros z Hz Heq. apply Hna. rewrite <- Heq.
    apply list_elem_of_In, in_map, list_elem_of_In, Hz. }
  inv Hx; inv Hy; [done|..]; [| |by apply IH].
  - exfalso. by eapply Hfresh.
  - exfalso. by eapply Hfresh.
Qed.

(** Members with distinct names have one sorted listing, whatever the order
    they are filed in. *)
Lemma sorted_members_filed xs ys :
  xs ≡ₚ ys → NoDup (map short_name ys) →
  sorted_members xs = sorted_members ys.
Proof.
  intros Hperm Hnd.
  apply StronglySorted_unique_strong with (R := member_le);
    [|apply sorted_members_sorted..|].
  - intros a b Ha Hb Hab Hba.
    rewrite sorted_members_perm in Ha, Hb. rewrite Hperm in Ha.
    apply (NoDup_map_inj short_name ys); [done..|].
    by apply (anti_symm String.le).
  - by rewrite !sorted_members_perm.
Qed.

Lemma list_truthy_perm {A} (xs ys : list A) :
  xs ≡ₚ ys → list_truthy xs = list_truthy ys.
Proof.
  intros H. destruct xs, ys; try done.
  - by apply Permutation_nil_l in H.
  - by apply Permutation_nil_r in H.
Qed.

Lemma methods_section_filed xs ys :
  xs ≡ₚ ys → NoDup (map short_name ys) →
  methods_section xs = methods_section ys.
Proof.
  intros Hperm Hnd. unfold methods_section.
  by rewrite (list_truthy_perm _ _ Hperm), (sorted_members_filed _ _ Hperm).
Qed.

Lemma class_page_result page_info page :
  _build_class_page page_info = Ok page →
  page = join "" (class_head_parts page_info
                  ++ class_middle_parts page_info
                  ++ methods_section (cls_methods page_info)
                  ++ class_tail_parts page_info).
Proof.
  intros H.
  destruct (decide (compatibility (cls_doc page_info) = ∅)) as [Hdoc|Hdoc];
    [|by rewrite class_page_raise in H by by left].
  destruct (decide (Forall (fun prop_info => no_compatibility (doc prop_info))
                           (cls_properties page_info))) as [Hp|Hp].
  - rewrite class_page_ok in H by done. by simplify_eq.
  - apply not_Forall_Exists in Hp; [|apply _].
    apply Exists_exists in Hp as (prop_info & Hin & Hbad).
    rewrite class_page_raise in H; [done|]. right. by exists prop_info.
Qed.

(** ** The renderer: which pages render *)

Lemma prefix_app sub rest : String.prefix sub (sub +:+ rest) = true.
Proof.
  induction sub as [|c sub IH]; [by destruct rest|].
  rewrite app_cons. cbn. by destruct (ascii_dec c c).
Qed.

Lemma str_contains_app before sub after :
  str_contains sub (before +:+ sub +:+ after) = true.
Proof.
  induction before as [|c before IH].
  - rewrite app_empty_l. pose proof (prefix_app sub after) as Hp.
    destruct (sub +:+ after); cbn [str_contains]; by rewrite Hp.
  - rewrite app_cons. cbn [str_contains]. by rewrite IH, orb_true_r.
Qed.

Lemma method_parts_join method_info :
  join "" (method_parts method_info)
  = h3_method method_info +:+ docstring (doc method_info)
    +:+ _build_function_details (function_details (doc method_info))
    +:+ _build_compatibility (compatibility (doc method_info))
    +:+ nl +:+ nl.
Proof. unfold method_parts. by rewrite !join_cons, app_empty_r. Qed.

Lemma methods_section_block method_info methods :
  method_info ∈ methods →
  ∃ before after,
    join "" (methods_section methods)
    = before
      +:+ _build_compatibility (compatibility (doc method_info))
      +:+ after.
Proof.
  intros Hin. unfold methods_section. rewrite (list_truthy_elem _ _ Hin).
  rewrite <- (sorted_members_perm methods) in Hin.
  apply list_elem_of_split in Hin as (l1 & l2 & ->).
  rewrite flat_map_app. cbn [flat_map].
  rewrite !join_app, method_parts_join.
  exists (join "" ["## Methods" +:+ nl +:+ nl]
          +:+ join "" (flat_map method_parts l1)
          +:+ h3_method method_info +:+ docstring (doc method_info)
          +:+ _build_function_details (function_details (doc method_info))),
    (nl +:+ nl +:+ join "" (flat_map method_parts l2)
        +:+ join "" [nl +:+ nl]).
  by rewrite !app_assoc_str.
Qed.

(** C9: a class page whose own docstring, or the docstring of one of whose
    properties, has a compatibility block is not rendered:
    [_build_class_page] fails an assertion.  The blocks of methods are
    rendered: a rendered class page holds, for each of its methods,
    [_build_compatibility] of the blocks of the method. *)
Theorem class_page_compatibility_assertion (page_info : ClassPageInfo) :
  compatibility (cls_doc page_info) ≠ ∅
  ∨ (∃ prop_info, prop_info ∈ cls_properties page_info
                  ∧ compatibility (doc prop_info) ≠ ∅) →
  _build_class_page page_info = Raise AssertionError
  ∧ ∀ rendered page method_info,
      _build_class_page rendered = Ok page →
      method_info ∈ cls_methods rendered →
      str_contains (_build_compatibility (compatibility (doc method_info)))
                   page = true.
Proof.
  intros H. split; [by apply class_page_raise|].
  intros rendered page method_info ->%class_page_result Hin.
  destruct (methods_section_block _ _ Hin) as (before & after & Hm).
  rewrite (app_assoc (class_head_parts rendered)), (join_app (_ ++ _)),
    (join_app (methods_section _)), Hm, !app_assoc_str.
  rewrite <- (app_assoc_str _ before). apply str_contains_app.
Qed.

Lemma class_page_compatibility_assertion_witness :
  _build_class_page numpy_property_page = Raise AssertionError.
Proof.
  refine (proj1 (class_page_compatibility_assertion numpy_property_page _)).
  right. exists numpy_property. split; [by left|].
  intros H. by apply (f_equal (lookup "numpy")) in H.
Defined.

(** A class page with a block in its own docstring is not rendered
    either. *)
Example numpy_class_page_raises :
  _build_class_page numpy_class_page = Raise AssertionError.
Proof. reflexivity. Qed.

(** The block of a method is rendered. *)
Example method_block_rendered :
  ∃ page, _build_class_page TestClass_page = Ok page
          ∧ str_contains ("#### numpy compatibility" +:+ nl +:+ "Not in NumPy.")
                         page = true.
Proof. eexists. split; reflexivity. Qed.

(** C8, as amended: [build_md_page] renders every function page, every class
    page whose own docstring and whose properties' docstrings have no
    compatibility block, and every module page whose linkable members are
    classes, functions or modules; for a page info of another kind it raises
    [ValueError]; nothing but a function, class or module page is
    rendered. *)
Theorem build_md_page_dispatch (page_info : PageInfo) :
  match page_info with
  | ForFunction p => build_md_page page_info = Ok (_build_function_page p)
  | ForClass p =>
      no_compatibility (cls_doc p) →
      Forall (fun prop_info => no_compatibility (doc prop_info))
             (cls_properties p) →
      build_md_page page_info
      = Ok (join "" (class_head_parts p ++ class_middle_parts p
                     ++ methods_section (cls_methods p)
                     ++ class_tail_parts p))
  | ForModule p =>
      Forall linkable_is_known (mod_members p) →
      build_md_page page_info
      = Ok (join "" (module_head_parts p)
            +:+ join (nl +:+ nl) (map member_line (mod_members p)))
  | OtherPageInfo type_repr =>
      build_md_page page_info
      = Raise (ValueError ("Unknown Page Info Type: " +:+ type_repr))
  end
  ∧ ∀ md, build_md_page page_info = Ok md →
          for_function page_info || for_class page_info
          || for_module page_info = true.
Proof.
  split.
  - destruct page_info as [p|p|p|t]; cbn [build_md_page]; [done| | |done].
    + apply class_page_ok.
    + apply module_page_ok.
  - by destruct page_info.
Qed.

Lemma build_md_page_dispatch_witness :
  build_md_page (ForClass TestClass_page)
  = Ok (join "" (class_head_parts TestClass_page
                 ++ class_middle_parts TestClass_page
                 ++ methods_section (cls_methods TestClass_page)
                 ++ class_tail_parts TestClass_page)).
Proof.
  refine (proj1 (build_md_page_dispatch (ForClass TestClass_page)) _ _).
  - reflexivity.
  - repeat constructor.
Defined.

(** C8, as stated, fails: a class page with a compatibility block in its own
    docstring is a class page, and [build_md_page] returns no page for it. *)
Lemma build_md_page_class_not_rendered :
  for_class (ForClass numpy_class_page) = true
  ∧ build_md_page (ForClass numpy_class_page) = Raise AssertionError.
Proof. split; reflexivity. Qed.

(** C10, as amended: when every linkable member of a module page is a class,
    a function or a module, the page is rendered and every member has its
    line: [Constant <name>] for a member that is no link, and else a link
    with the text [class <name>] for a class, [<name>(...)] for a function,
    [<name>] and the suffix [ module] for a module.  A linkable member of
    another kind leaves [link_text] unassigned: when no linkable member
    stands before it, [_build_module_page] fails with an unbound-variable
    error. *)
Theorem module_page_member_lines
    (page_info bad_page : ModulePageInfo)
    (before after : list MemberInfo) (odd : MemberInfo) :
  Forall linkable_is_known (mod_members page_info) →
  mod_members bad_page = before ++ odd :: after →
  Forall (fun member_info => is_link member_info = false) before →
  is_link odd = true →
  isclass (obj odd) = false →
  isfunction (obj odd) = false →
  ismodule (obj odd) = false →
  _build_module_page page_info
  = Ok (join "" (module_head_parts page_info)
        +:+ join (nl +:+ nl) (map member_line (mod_members page_info)))
  ∧ (∀ member_info,
       member_line member_info
       = if is_link member_info then
           match obj member_info with
           | ObjClass =>
               "[`class " +:+ short_name member_info +:+ "`]("
                 +:+ url member_info +:+ ")"
                 +:+ (if str_truthy (brief (doc member_info))
                      then ": " +:+ brief (doc member_info) else "")
           | ObjFunction =>
               "[`" +:+ short_name member_info +:+ "(...)`]("
                 +:+ url member_info +:+ ")"
                 +:+ (if str_truthy (brief (doc member_info))
                      then ": " +:+ brief (doc member_info) else "")
           | ObjModule =>
               "[`" +:+ short_name member_info +:+ "`]("
                 +:+ url member_info +:+ ")"
                 +:+ (if str_truthy (brief (doc member_info))
                      then " module: " +:+ brief (doc member_info)
                      else " module")
           | _ => member_line member_info
           end
         else "Constant " +:+ short_name member_info)
  ∧ _build_module_page bad_page = Raise (UnboundLocalError "link_text").
Proof.
  intros Hknown Hm Hbefore Hl Hc Hf Hmod. split; [|split].
  - by apply module_page_ok.
  - intros member_info. unfold member_line, link_line, suffix_of, link_text_of.
    destruct (is_link member_info); [|done].
    destruct (obj member_info); try done;
      destruct (str_truthy (brief (doc member_info))); try reflexivity;
      cbn [default from_option id]; by rewrite app_assoc_str.
  - apply (module_page_unbound _ before odd after); [done..|].
    unfold link_text_of. by destruct (obj odd).
Qed.

Lemma module_page_member_lines_witness :
  _build_module_page TestModule_page
  = Ok (join "" (module_head_parts TestModule_page)
        +:+ join (nl +:+ nl) (map member_line (mod_members TestModule_page)))
  ∧ _build_module_page unbound_module_page
    = Raise (UnboundLocalError "link_text").
Proof.
  refine (let H := module_page_member_lines TestModule_page
                     unbound_module_page [constant_member] [TestClass_member]
                     odd_member _ _ _ _ _ _ _ in
          conj (proj1 H) (proj2 (proj2 H))); try reflexivity.
  - repeat constructor; intros ?; first [done | by eexists].
  - by repeat constructor.
Defined.

(** C10, as stated, fails: a linkable member that is neither a class, a
    function nor a module, coming after a class, raises no error; its line
    takes the link text of the class. *)
Lemma module_page_stale_link_text :
  odd_member ∈ mod_members stale_module_page
  ∧ is_link odd_member = true
  ∧ isclass (obj odd_member) || isfunction (obj odd_member)
    || ismodule (obj odd_member) = false
  ∧ _build_module_page stale_module_page
    = Ok ("# Module: TestModule" +:+ nl +:+ nl +:+ "Tests." +:+ nl +:+ nl
          +:+ "## Members" +:+ nl +:+ nl
          +:+ "[`class TestClass`](TestModule/TestClass.md): "
          +:+ "Docstring for TestClass itself." +:+ nl +:+ nl
          +:+ "[`class TestClass`](TestModule/odd.md)").
Proof.
  split; [|split; [|split]]; try reflexivity.
  apply list_elem_of_In. cbn. auto.
Qed.

(** ** The docstring structurer: round trip *)

Lemma split_lines_join s : join "" (split_lines s) = s.
Proof.
  induction s as [|c s IH]; [done|]. cbn [split_lines].
  destruct (is_newline c).
  - by rewrite join_cons, IH.
  - destruct (split_lines s) as [|line rest].
    + cbn in IH. by rewrite <- IH.
    + rewrite join_cons in IH. by rewrite join_cons, app_cons, IH.
Qed.

Lemma span_word_app s w rest : span_word s = (w, rest) → s = w +:+ rest.
Proof.
  revert w rest. induction s as [|c s IH]; intros w rest H; cbn in H.
  - by simplify_eq.
  - destruct (is_word c); [|by simplify_eq].
    destruct (span_word s) as [w' rest'] eqn:Hs. simplify_eq.
    by rewrite app_cons, <- (IH w' rest).
Qed.

Lemma strip_prefix_app p s rest : strip_prefix p s = Some rest → s = p +:+ rest.
Proof.
  revert s. induction p as [|a p IH]; intros s H.
  - destruct s; cbn in H; by simplify_eq.
  - destruct s as [|b s]; [done|]. cbn in H.
    destruct (decide (a = b)) as [->|]; [|done].
    by rewrite app_cons, <- (IH s).
Qed.

Lemma header_keyword_line line kw :
  header_keyword line = Some kw → line = kw +:+ ":" +:+ nl.
Proof.
  unfold header_keyword. intros H.
  destruct (span_word line) as [[|c w] rest] eqn:Hs; [done|].
  destruct (is_upper c); [|done]. cbn in H. case_bool_decide; [|done].
  simplify_eq. by apply span_word_app.
Qed.

Lemma parse_item_line line name description :
  parse_item line = Some (name, description) →
  line = "  " +:+ name +:+ ":" +:+ description.
Proof.
  unfold parse_item. intros H.
  destruct (strip_prefix "  " line) as [body|] eqn:Hp; [|done].
  destruct (span_word body) as [[|c w] [|colon d]] eqn:Hs; try done.
  destruct colon as [[] [] [] [] [] [] [] []]; try done. simplify_eq.
  apply strip_prefix_app in Hp. apply span_word_app in Hs. by subst.
Qed.

Lemma detail_str_unfold detail :
  detail_str detail
  = keyword detail +:+ ":" +:+ nl +:+ header detail
    +:+ items_str (items detail).
Proof. unfold detail_str, items_str. rewrite join_app. by strs. Qed.

Lemma items_str_snoc items name description :
  items_str (items ++ [(name, description)])
  = items_str items +:+ "  " +:+ name +:+ ":" +:+ description.
Proof.
  unfold items_str. rewrite flat_map_app, join_app. cbn [flat_map app fst snd].
  by strs.
Qed.

Lemma items_str_cons name description items :
  items_str ((name, description) :: items)
  = "  " +:+ name +:+ ":" +:+ description +:+ items_str items.
Proof. unfold items_str. cbn [flat_map fst snd]. rewrite join_app. by strs. Qed.

Lemma items_str_append_to_last items text :
  items ≠ [] →
  items_str (append_to_last items text) = items_str items +:+ text.
Proof.
  induction items as [|[name d] items IH]; [done|].
  intros _. destruct items as [|item items].
  - cbn [append_to_last]. rewrite !items_str_cons. by strs.
  - change (append_to_last ((name, d) :: item :: items) text)
      with ((name, d) :: append_to_last (item :: items) text).
    rewrite (items_str_cons name d (append_to_last _ _)),
      (items_str_cons name d (item :: items)), IH by done.
    by strs.
Qed.

Lemma detail_str_add_line detail line :
  detail_str (add_line detail line) = detail_str detail +:+ line.
Proof.
  unfold add_line. destruct (parse_item line) as [[name d]|] eqn:Hitem.
  - apply parse_item_line in Hitem. rewrite !detail_str_unfold.
    cbn [keyword header items]. rewrite items_str_snoc, Hitem. by strs.
  - destruct (items detail) as [|item items'] eqn:Hitems;
      rewrite !detail_str_unfold; cbn [keyword header items].
    + rewrite Hitems. by strs.
    + rewrite items_str_append_to_last, Hitems by done. by strs.
Qed.

(** While no section is open, none is closed. *)
Definition detail_state_ok (st : DetailState) : Prop :=
  ds_open st = None → ds_closed st = [].

Lemma detail_step_ok st line :
  detail_state_ok st → detail_state_ok (detail_step st line).
Proof.
  unfold detail_state_ok, detail_step. intros Hok.
  destruct (header_keyword line); [done|].
  by destruct (ds_open st).
Qed.

Lemma detail_step_str st line :
  detail_state_ok st →
  state_str (detail_step st line) = state_str st +:+ line.
Proof.
  unfold detail_state_ok, detail_step, state_str. intros Hok.
  destruct (header_keyword line) as [kw|] eqn:Hkw.
  - apply header_keyword_line in Hkw. cbn [ds_text ds_closed ds_open].
    rewrite map_app, join_app. cbn [option_list option_rect map].
    rewrite join_cons, detail_str_unfold, Hkw.
    cbn [keyword header items]. unfold items_str.
    cbn [flat_map]. by strs.
  - destruct (ds_open st) as [detail|]; cbn [ds_text ds_closed ds_open].
    + rewrite !map_app, !join_app. cbn [option_list option_rect map].
      rewrite !join_cons, detail_str_add_line. by strs.
    + rewrite Hok by done. cbn. by strs.
Qed.

Lemma detail_scan_str lines st :
  detail_state_ok st →
  state_str (foldl detail_step st lines) = state_str st +:+ join "" lines.
Proof.
  revert st. induction lines as [|line lines IH]; intros st Hok.
  - cbn. by strs.
  - cbn [foldl]. rewrite IH by by apply detail_step_ok.
    rewrite detail_step_str by done. by strs.
Qed.

(** Round trip of the split into remainder and detail sections. *)
Lemma parse_function_details_round_trip text :
  (_parse_function_details text).1
  +:+ join "" (map detail_str (_parse_function_details text).2)
  = text.
Proof.
  unfold _parse_function_details. cbn [fst snd].
  change (?a +:+ join "" (map detail_str (ds_closed ?st ++ _)))
    with (state_str st).
  rewrite detail_scan_str by done. cbn. by rewrite split_lines_join.
Qed.

Lemma compat_scan_plain lines st :
  Forall (fun line => compatibility_open line = None) lines →
  cs_open st = None →
  foldl compat_step st lines
  = mkCompatState (cs_text st +:+ join "" lines) (cs_blocks st) None.
Proof.
  intros H. revert st. induction H as [|line lines Hline _ IH]; intros st Hst.
  - cbn. rewrite app_empty_r. destruct st; cbn in *; by subst.
  - cbn [foldl]. rewrite IH.
    + unfold compat_step. rewrite Hst, Hline.
      cbn [cs_text cs_blocks cs_open]. by strs.
    + unfold compat_step. by rewrite Hst, Hline.
Qed.

Lemma extract_compatibility_plain raw :
  no_compatibility_blocks raw → extract_compatibility raw = (raw, ∅).
Proof.
  intros H. unfold extract_compatibility.
  rewrite (compat_scan_plain _ _ H) by done. cbn.
  by rewrite split_lines_join.
Qed.

(** C1: for a docstring free of compatibility blocks, the remainder text of
    the structurer followed by the serialized detail sections, in their
    order, is the docstring; on [RELU_DOC] the structurer finds two detail
    sections, [Args] and [Returns], and the second item of [Args], [name],
    has the description [ A name for the operation (optional)] with the two
    newlines that follow it. *)
Theorem docstring_round_trip (raw : string) :
  no_compatibility_blocks raw →
  docstring (structureDocstring raw)
  +:+ join "" (map detail_str (function_details (structureDocstring raw)))
  = raw
  ∧ compatibility (structureDocstring raw) = ∅
  ∧ length (function_details (structureDocstring RELU_DOC)) = 2
  ∧ ∃ features_description returns_header,
      function_details (structureDocstring RELU_DOC)
      = [ mkFunctionDetail "Args" ""
            [ ("features", features_description);
              ("name", " A name for the operation (optional)" +:+ nl +:+ nl) ];
          mkFunctionDetail "Returns" returns_header [] ].
Proof.
  intros H. split; [|split; [|split]].
  - unfold structureDocstring. rewrite extract_compatibility_plain by done.
    pose proof (parse_function_details_round_trip raw) as Hrt.
    destruct (_parse_function_details raw) as [remainder details].
    exact Hrt.
  - unfold structureDocstring. rewrite extract_compatibility_plain by done.
    by destruct (_parse_function_details raw).
  - by vm_compute.
  - eexists _, _. by vm_compute.
Qed.

Lemma docstring_round_trip_witness :
  docstring (structureDocstring RELU_DOC)
  +:+ join "" (map detail_str (function_details (structureDocstring RELU_DOC)))
  = RELU_DOC.
Proof.
  refine (proj1 (docstring_round_trip RELU_DOC _)).
  by apply (bool_decide_unpack _); vm_compute.
Defined.

(** The expectations of [testParseFunctionDetails]. *)
Example testParseFunctionDetails :
  ∃ features_description,
    _parse_function_details RELU_DOC
    = ("Computes rectified linear: `max(features, 0)`" +:+ nl +:+ nl,
       [ mkFunctionDetail "Args" ""
           [ ("features", features_description);
             ("name", " A name for the operation (optional)" +:+ nl +:+ nl) ];
         mkFunctionDetail "Returns"
           ("  A `Tensor`. Has the same type as `features`" +:+ nl) [] ]).
Proof. eexists. by vm_compute. Qed.

(** A docstring with the two blocks of [test_parse_md_docstring]: the blocks
    leave the text and go to the mapping. *)
Example structure_with_compatibility :
  structureDocstring
    ("Brief." +:+ nl +:+ nl +:+ "@compatibility(numpy)" +:+ nl
       +:+ "NumPy has nothing as awesome as this function." +:+ nl
       +:+ "@end_compatibility" +:+ nl)
  = {| brief := "Brief.";
       docstring := "Brief." +:+ nl +:+ nl;
       function_details := [];
       compatibility :=
         {[ "numpy" :=
              "NumPy has nothing as awesome as this function." +:+ nl ]} |}.
Proof. by vm_compute. Qed.

(** ** The ArgSpec resolver on the signatures of the test *)

Example argspec_regular :
  _get_arg_spec test_function_for_partial1 [] = inr test_function_for_partial1.
Proof. reflexivity. Qed.

Example argspec_front_1 :
  _get_arg_spec test_function_for_partial1 [Positional [PyInt 1]]
  = inr (mkArgSpec ["arg2"; "kwarg1"; "kwarg2"] None None [PyInt 1; PyInt 2]).
Proof. reflexivity. Qed.

Example argspec_three_kw :
  _get_arg_spec test_function_for_partial1
    [Keyword [("arg2", PyInt 0); ("kwarg1", PyInt 0); ("kwarg2", PyInt 0)]]
  = inr (mkArgSpec ["arg1"] None None []).
Proof. reflexivity. Qed.

Example argspec_varargs :
  _get_arg_spec test_function_for_partial2 [Positional [PyInt 0; PyInt 1]]
  = inr (mkArgSpec [] (Some "my_args") (Some "my_kwargs") []).
Proof. reflexivity. Qed.

(** ** The ArgSpec resolver: bindings *)

Lemma index_of_lookup name names i :
  index_of name names = Some i → names !! i = Some name.
Proof.
  revert i. induction names as [|x names IH]; intros i H; [done|].
  cbn in H. destruct (decide (x = name)) as [->|]; [by simplify_eq|].
  destruct (index_of name names) as [j|]; [|done]. simplify_eq/=. by apply IH.
Qed.

Lemma delete_zip {A B} (l : list A) (k : list B) i :
  length l = length k →
  delete i (zip l k) = zip (delete i l) (delete i k).
Proof.
  revert k i. induction l as [|x l IH]; intros [|y k] i Hlen; try done.
  destruct i as [|i]; [done|]. cbn. f_equal. apply IH. by simplify_eq/=.
Qed.

Lemma delete_app_l {A} (l k : list A) i :
  i < length l → delete i (l ++ k) = delete i l ++ k.
Proof.
  revert i. induction l as [|x l IH]; intros i Hi; [by cbn in Hi; lia|].
  destruct i as [|i]; [done|]. cbn. f_equal. apply IH. cbn in Hi. lia.
Qed.

Lemma delete_app_r {A} (l k : list A) i :
  length l ≤ i → delete i (l ++ k) = l ++ delete (i - length l) k.
Proof.
  revert i. induction l as [|x l IH]; intros i Hi.
  - cbn. by rewrite Nat.sub_0_r.
  - destruct i as [|i]; [by cbn in Hi; lia|]. cbn. f_equal. apply IH.
    cbn in Hi. lia.
Qed.

Lemma delete_replicate {A} (x : A) n i :
  i < n → delete i (replicate n x) = replicate (n - 1) x.
Proof.
  revert i. induction n as [|n IH]; intros i Hi; [lia|].
  destruct i as [|i]; cbn; [by rewrite Nat.sub_0_r|].
  rewrite IH by lia. destruct n; [lia|]. cbn. by rewrite Nat.sub_0_r.
Qed.

(** Positional bindings drop the first names with what they stood for. *)
Lemma bind_positional_with_defaults spec n :
  length (defaults spec) ≤ length (args spec) →
  n ≤ length (args spec) →
  ∃ spec',
    bind_positional n spec = inr spec'
    ∧ args spec' = drop n (args spec)
    ∧ with_defaults spec' = drop n (with_defaults spec)
    ∧ varargs spec' = varargs spec
    ∧ keywords spec' = keywords spec.
Proof.
  intros Hwf Hn. unfold bind_positional.
  destruct (decide (length (args spec) < n)); [lia|].
  eexists. split; [done|]. split; [done|]. split; [|done].
  unfold with_defaults, first_default_arg.
  cbn [args defaults]. symmetry. etrans; [apply zip_with_drop|]. f_equal.
  rewrite drop_app, drop_replicate, length_replicate, !length_drop, fmap_drop.
  do 2 f_equal. lia.
Qed.

(** A keyword binding deletes the name with what it stood for. *)
Lemma bind_keyword_with_defaults spec name i :
  length (defaults spec) ≤ length (args spec) →
  index_of name (args spec) = Some i →
  args (bind_keyword name spec) = delete i (args spec)
  ∧ with_defaults (bind_keyword name spec) = delete i (with_defaults spec)
  ∧ varargs (bind_keyword name spec) = varargs spec
  ∧ keywords (bind_keyword name spec) = keywords spec.
Proof.
  intros Hwf Hi. unfold bind_keyword. rewrite Hi.
  apply index_of_lookup, lookup_lt_Some in Hi.
  split; [done|]. split; [|done].
  unfold with_defaults, first_default_arg. cbn [args defaults].
  rewrite delete_zip
    by (rewrite length_app, length_replicate, length_fmap; lia).
  f_equal. rewrite length_delete by by apply lookup_lt_is_Some_2.
  destruct (decide (length (args spec) - length (defaults spec) ≤ i)).
  - rewrite delete_app_r by (rewrite length_replicate; lia).
    rewrite length_replicate, <- list_fmap_delete.
    rewrite length_delete by (apply lookup_lt_is_Some_2; lia).
    do 2 f_equal. lia.
  - rewrite delete_app_l by (rewrite length_replicate; lia).
    rewrite delete_replicate by lia. do 2 f_equal. lia.
Qed.

Lemma bind_positional_0 spec : bind_positional 0 spec = inr spec.
Proof.
  unfold bind_positional. destruct (decide _); [lia|]. by destruct spec.
Qed.

(** C2: on the declared signature [(arg1, arg2, kwarg1=1, kwarg2=2)], the
    keyword binding [kwarg1=0] leaves [arg1, arg2, kwarg2] with defaults
    [(2,)], the keyword binding [kwarg2=0] leaves [arg1, arg2, kwarg1] with
    defaults [(1,)], and three positional values leave [kwarg2] with defaults
    [(2,)].  In general, positional values consume the names from the front,
    each with the default it had, and a keyword binding removes the named
    parameter where it stands, with the default it had; the names that
    remain keep their defaults, and the variadic names stay. *)
Theorem argspec_partial_binding
    (spec : ArgSpec) (values : list PyValue)
    (name : string) (value : PyValue) (i : nat) :
  length (defaults spec) ≤ length (args spec) →
  length values ≤ length (args spec) →
  index_of name (args spec) = Some i →
  _get_arg_spec test_function_for_partial1 [Keyword [("kwarg1", PyInt 0)]]
  = inr (mkArgSpec ["arg1"; "arg2"; "kwarg2"] None None [PyInt 2])
  ∧ _get_arg_spec test_function_for_partial1 [Keyword [("kwarg2", PyInt 0)]]
    = inr (mkArgSpec ["arg1"; "arg2"; "kwarg1"] None None [PyInt 1])
  ∧ _get_arg_spec test_function_for_partial1
      [Positional [PyInt 1; PyInt 2; PyInt 3]]
    = inr (mkArgSpec ["kwarg2"] None None [PyInt 2])
  ∧ (∃ bound,
       _get_arg_spec spec [Positional values] = inr bound
       ∧ args bound = drop (length values) (args spec)
       ∧ with_defaults bound = drop (length values) (with_defaults spec)
       ∧ varargs bound = varargs spec
       ∧ keywords bound = keywords spec)
  ∧ (∃ bound,
       _get_arg_spec spec [Keyword [(name, value)]] = inr bound
       ∧ args spec !! i = Some name
       ∧ args bound = delete i (args spec)
       ∧ with_defaults bound = delete i (with_defaults spec)
       ∧ varargs bound = varargs spec
       ∧ keywords bound = keywords spec).
Proof.
  intros Hwf Hn Hi. do 3 (split; [reflexivity|]). split.
  - destruct (bind_positional_with_defaults spec (length values) Hwf Hn)
      as (bound & Hb & ?).
    exists bound. split; [|done].
    unfold _get_arg_spec. cbn [foldl positional_count flat_map keyword_names
      app]. by rewrite Hb.
  - exists (bind_keyword name spec). split.
    + unfold _get_arg_spec. cbn [foldl positional_count flat_map keyword_names
        app map fst]. by rewrite bind_positional_0.
    + split; [by apply index_of_lookup|].
      by apply bind_keyword_with_defaults.
Qed.

Lemma argspec_partial_binding_witness :
  ∃ bound,
    _get_arg_spec test_function_for_partial1 [Keyword [("kwarg1", PyInt 0)]]
    = inr bound
    ∧ args test_function_for_partial1 !! 2 = Some "kwarg1"
    ∧ args bound = delete 2 (args test_function_for_partial1)
    ∧ with_defaults bound = delete 2 (with_defaults test_function_for_partial1)
    ∧ varargs bound = varargs test_function_for_partial1
    ∧ keywords bound = keywords test_function_for_partial1.
Proof.
  refine (proj2 (proj2 (proj2 (proj2
    (argspec_partial_binding test_function_for_partial1
       [PyInt 1; PyInt 2; PyInt 3] "kwarg1" (PyInt 0) 2 _ _ _))))).
  - cbn. lia.
  - cbn. lia.
  - reflexivity.
Defined.

(** ** The reference resolver: cutting a reference *)




Lemma rpartition_at_none c s :
  contains_char c s = false → rpartition_at c s = None.
Proof.
  induction s as [|a s IH]; [done|]. cbn. intros [Ha Hs]%orb_false_elim.
  apply bool_decide_eq_false in Ha. rewrite IH by done.
  by destruct (decide (a = c)).
Qed.

Lemma rpartition_at_app c l r :
  contains_char c r = false → rpartition_at c (l +:+ String c r) = Some (l, r).
Proof.
  intros Hr. induction l as [|a l IH].
  - rewrite app_empty_l. cbn. rewrite rpartition_at_none by done.
    by destruct (decide (c = c)).
  - rewrite app_cons. cbn. by rewrite IH.
Qed.

(** ** The reference resolver: scanning a token *)

Lemma string_foldl_app {S} (f : S → ascii → S) a b st :
  string_foldl f (a +:+ b) st = string_foldl f b (string_foldl f a st).
Proof.
  revert st. induction a as [|c a IH]; intros st; [done|].
  rewrite app_cons. cbn. apply IH.
Qed.

Section scan.
Context (r : ReferenceResolver) (root : string).

Lemma scan_inside ref out acc :
  contains_char "}" ref = false →
  string_foldl (scan_step r root) ref (inr out, Inside acc)
  = (inr out, Inside (acc +:+ ref)).
Proof.
  revert acc. induction ref as [|c ref IH]; intros acc H.
  - cbn. by rewrite app_empty_r.
  - cbn in H. apply orb_false_elim in H as [Hc Href].
    apply bool_decide_eq_false in Hc. cbn [string_foldl scan_step].
    destruct (decide (c = "}"%char)); [done|].
    rewrite IH by done. unfold char_str. by rewrite app_assoc_str.
Qed.

(** A token that stands alone is replaced by the link of its reference. *)
Lemma replace_references_token ref :
  ref ≠ "" →
  contains_char "}" ref = false →
  replace_references r (token ref) root = one_ref r ref root.
Proof.
  intros Hne Hbrace. unfold replace_references, token.
  change ("@{" +:+ ref +:+ "}") with (String "@" (String "{" (ref +:+ "}"))).
  cbn [string_foldl]. change (scan_step r root (inr "", Outside) "@"%char)
    with (@inr ResolveError string "", AfterAt).
  change (scan_step r root (inr "", AfterAt) "{"%char)
    with (@inr ResolveError string "", Inside "").
  rewrite string_foldl_app, scan_inside by done. cbn.
  destruct ref as [|c ref]; [done|]. by destruct (one_ref r _ root).
Qed.

Lemma split_display_plain ref :
  contains_char "$" ref = false → split_display ref = (ref, None).
Proof.
  destruct ref as [|c ref]; [done|]. cbn.
  intros [_ H]%orb_false_elim. by rewrite rpartition_at_none.
Qed.

Lemma one_ref_symbol ref :
  contains_char "$" ref = false →
  one_ref r ref root = python_link r ref None root.
Proof.
  intros H. unfold one_ref. rewrite split_display_plain by done.
  destruct ref as [|c ref]; [done|]. cbn in H.
  apply orb_false_elim in H as [Hc _]. apply bool_decide_eq_false in Hc.
  by destruct c as [[] [] [] [] [] [] [] []].
Qed.

End scan.

(** ** The reference resolver on the strings of the tests *)

Example test_replace_references :
  replace_references symbols_resolver
    "A @{tf.reference}, another @{tf.reference}, a member @{tf.reference.foo}, and a @{tf.third}."
    "../.."
  = inr "A [`tf.reference`](../../tf/reference.md), another [`tf.reference`](../../tf/reference.md), a member [`tf.reference.foo`](../../tf/reference.md#foo), and a [`tf.third`](../../tf/fourth.md).".
Proof. vm_compute. reflexivity. Qed.

(** [test_doc_replace_references], for a path to the documents that is as
    the test expects it for the relative path [python]. *)
Example test_doc_replace_references (path : string → string → string) :
  (∀ url, path "python" url = "../" +:+ url) →
  replace_references (docs_resolver path)
    "@{$doc1} @{$doc1#abc} @{$doc1$link} @{$doc1#def$zelda} @{$do/c2}"
    "python"
  = inr "[Title1](../URL1) [Title1](../URL1#abc) [link](../URL1) [zelda](../URL1#def) [Two words](../somewhere/else)".
Proof.
  intros Hpath. vm_compute. change (path ?a ?b) with (path a b).
  by rewrite !Hpath.
Qed.

(** ** The reference resolver: symbol references *)

Lemma rpartition_dotted parent member :
  contains_char "." member = false →
  rpartition_at "." (parent +:+ "." +:+ member) = Some (parent, member).
Proof. apply rpartition_at_app. Qed.

(** C3, as amended: a symbol reference token [@{<ref>}] (no custom text) is
    resolved on the canonical name of [<ref>], one hop through the duplicate
    map, and the display text is the original name between backticks.  When
    the canonical name is indexed, the link goes to its own page,
    [r/<name with slashes>.md], unless it is a member (neither class nor
    module) of an indexed class: then the link goes to the page of the class
    with the anchor [#<lastComponent>].  When the canonical name is not
    indexed but its immediate parent is, the link goes to the page of the
    parent with the anchor [#<lastComponent>]. *)
Theorem symbol_reference_link
    (r : ReferenceResolver) (ref root master_name : string) :
  ref ≠ "" →
  contains_char "}" ref = false →
  contains_char "$" ref = false →
  master_name = default ref (duplicate_of r !! ref) →
  (∀ o, index r !! master_name = Some o →
        isclass o || ismodule o = true
        ∨ contains_char "." master_name = false
        ∨ (∃ parent member,
             master_name = parent +:+ "." +:+ member
             ∧ contains_char "." member = false
             ∧ indexed_class r parent = false) →
        replace_references r (token ref) root
        = inr ("[`" +:+ ref +:+ "`](" +:+ root +:+ "/"
                 +:+ documentation_path master_name +:+ ")"))
  ∧ (∀ o class_name member,
       index r !! master_name = Some o →
       isclass o = false → ismodule o = false →
       master_name = class_name +:+ "." +:+ member →
       contains_char "." member = false →
       indexed_class r class_name = true →
       replace_references r (token ref) root
       = inr ("[`" +:+ ref +:+ "`](" +:+ root +:+ "/"
                +:+ documentation_path class_name +:+ "#" +:+ member
                +:+ ")"))
  ∧ (∀ parent member,
       index r !! master_name = None →
       master_name = parent +:+ "." +:+ member →
       contains_char "." member = false →
       is_Some (index r !! parent) →
       replace_references r (token ref) root
       = inr ("[`" +:+ ref +:+ "`](" +:+ root +:+ "/"
                +:+ documentation_path parent +:+ "#" +:+ member +:+ ")")).
Proof.
  intros Hne Hbrace Hdollar Hmaster.
  rewrite replace_references_token, one_ref_symbol by done.
  unfold python_link, reference_to_path. rewrite <- Hmaster.
  split; [|split].
  - intros o Ho Hcases. rewrite Ho.
    destruct Hcases as [Hkind|[Hdot|(parent & member & -> & Hm & Hp)]].
    + destruct (rpartition_at "." master_name) as [[??]|]; [|by strs].
      rewrite Hkind. cbn [negb andb]. by strs.
    + rewrite rpartition_at_none by done. by strs.
    + rewrite rpartition_dotted, Hp, andb_false_r by done. by strs.
  - intros o class_name member Ho Hc Hm -> Hmember Hclass.
    rewrite Ho, rpartition_dotted, Hc, Hm, Hclass by done.
    cbn [orb negb andb]. by strs.
  - intros parent member Ho -> Hmember Hparent.
    rewrite Ho, rpartition_dotted, bool_decide_eq_true_2 by done. by strs.
Qed.

Lemma symbol_reference_link_witness :
  replace_references symbols_resolver (token "tf.reference.foo") "../.."
  = inr "[`tf.reference.foo`](../../tf/reference.md#foo)".
Proof.
  refine (proj1 (proj2 (symbol_reference_link symbols_resolver
                          "tf.reference.foo" "../.." "tf.reference.foo"
                          _ _ _ _))
            ObjFunction "tf.reference" "foo" _ _ _ _ _ _);
    by vm_compute.
Defined.

(** C3, as stated, fails: [tf.reference.foo] is in the index of
    [test_replace_references], and its link goes to the page of the class
    [tf.reference] with the anchor [#foo], not to a page of its own. *)
Lemma indexed_member_links_to_class_page :
  is_Some (index symbols_resolver !! "tf.reference.foo")
  ∧ spec_symbol_link symbols_resolver "tf.reference.foo" "../.."
    = Some "[`tf.reference.foo`](../../tf/reference/foo.md)"
  ∧ replace_references symbols_resolver (token "tf.reference.foo") "../.."
    = inr "[`tf.reference.foo`](../../tf/reference.md#foo)".
Proof. split; [by exists ObjFunction|split; by vm_compute]. Qed.

(** The duplicate [tf.third] links to the page of [tf.fourth], under its own
    name. *)
Example duplicate_links_to_canonical_page :
  replace_references symbols_resolver (token "tf.third") "../.."
  = inr "[`tf.third`](../../tf/fourth.md)".
Proof. by vm_compute. Qed.

(** A member that is not indexed links to the page of its indexed parent. *)
Example absent_member_links_to_parent_page :
  index symbols_resolver_without_foo !! "tf.reference.foo" = None
  ∧ replace_references symbols_resolver_without_foo
      (token "tf.reference.foo") "../.."
    = inr "[`tf.reference.foo`](../../tf/reference.md#foo)".
Proof. split; by vm_compute. Qed.

(** ** The reference resolver: document references *)





(** ** The docstring of [test_parse_md_docstring] *)

(** The references are resolved, then the text is structured: three detail
    sections, the blocks [numpy] and [theano], and a remainder text free of
    tokens, of blocks and of the [Raises:] header. *)
Example test_parse_md_docstring :
  ∃ resolved,
    replace_references symbols_resolver fancy_docstring "../.." = inr resolved
    ∧ length (function_details (structureDocstring resolved)) = 3
    ∧ dom (compatibility (structureDocstring resolved))
      = ({[ "numpy"; "theano" ]} : gset string)
    ∧ compatibility (structureDocstring resolved) !! "numpy"
      = Some ("NumPy has nothing as awesome as this function." +:+ nl)
    ∧ str_contains "@" (docstring (structureDocstring resolved)) = false
    ∧ str_contains "compatibility" (docstring (structureDocstring resolved))
      = false
    ∧ str_contains "Raises:" (docstring (structureDocstring resolved)) = false.
Proof.
  eexists. split; [by vm_compute|].
  repeat split; by vm_compute.
Qed.

(** ** The renderer: the text of the sections on the pages *)

#[local] Instance block_le_trans : Transitive block_le.
Proof. intros a b c. unfold block_le. apply transitivity. Qed.

#[local] Instance block_le_total : Total block_le.
Proof. intros a b. unfold block_le. apply total, _. Qed.

Lemma sorted_blocks (m : gmap string string) :
  map (fun k => (k, default "" (m !! k))) (sorted_keys m)
  = merge_sort block_le (map_to_list m).
Proof.
  apply StronglySorted_unique_strong with (R := block_le).
  - intros [k1 v1] [k2 v2] H1 H2 H12 H21.
    assert (k1 = k2) as -> by by apply (anti_symm String.le).
    rewrite merge_sort_Permutation in H2.
    apply elem_of_map_to_list in H2.
    apply list_elem_of_In, in_map_iff in H1 as (k & [= <- <-] & _).
    by rewrite H2.
  - apply (StronglySorted_fmap _ String.le); [done|]. apply sorted_str_sorted.
  - apply StronglySorted_merge_sort; apply _.
  - rewrite merge_sort_Permutation, <- (map_lookup_items m).
    apply Permutation_map, sorted_str_perm.
Qed.

Lemma build_compatibility_text (m : gmap string string) :
  _build_compatibility m = rendered_compatibility m.
Proof.
  unfold _build_compatibility, rendered_compatibility, blocks_text.
  by rewrite <- sorted_blocks, map_map.
Qed.

Lemma method_parts_text method_info :
  join "" (method_parts method_info) = method_block method_info.
Proof.
  rewrite method_parts_join, build_function_details_text,
    build_compatibility_text.
  unfold h3_method, method_block. by rewrite !app_assoc_str.
Qed.

Lemma methods_blocks_text listed :
  join "" (flat_map method_parts listed) = join "" (map method_block listed).
Proof.
  induction listed as [|method_info listed IH]; [done|].
  cbn [flat_map map]. by rewrite join_app, join_cons, IH, method_parts_text.
Qed.

Lemma methods_section_text methods :
  join "" (methods_section methods)
  = if list_truthy methods
    then "## Methods" +:+ nl +:+ nl
         +:+ join "" (map method_block (sorted_members methods))
         +:+ nl +:+ nl
    else "".
Proof.
  unfold methods_section. destruct (list_truthy methods); [|done].
  rewrite !join_app, methods_blocks_text. cbn. by rewrite !app_assoc_str.
Qed.

Lemma class_page_ok_inv page_info page :
  _build_class_page page_info = Ok page →
  no_compatibility (cls_doc page_info)
  ∧ Forall (fun prop_info => no_compatibility (doc prop_info))
           (cls_properties page_info).
Proof.
  intros H.
  destruct (decide (compatibility (cls_doc page_info) = ∅)) as [Hdoc|Hdoc];
    [|by rewrite class_page_raise in H by by left].
  split; [done|].
  destruct (decide (Forall (fun prop_info => no_compatibility (doc prop_info))
                           (cls_properties page_info))) as [Hp|Hp]; [done|].
  apply not_Forall_Exists in Hp; [|apply _].
  apply Exists_exists in Hp as (prop_info & Hin & Hbad).
  rewrite class_page_raise in H; [done|]. right. by exists prop_info.
Qed.

Lemma names_sorted xs ys :
  xs ≡ₚ ys →
  map short_name (sorted_members xs) = map short_name (sorted_members ys).
Proof.
  intros H. apply (StronglySorted_unique String.le).
  - apply (StronglySorted_fmap short_name member_le String.le); [done|].
    apply sorted_members_sorted.
  - apply (StronglySorted_fmap short_name member_le String.le); [done|].
    apply sorted_members_sorted.
  - apply Permutation_map. by rewrite !sorted_members_perm.
Qed.

(** C7: on a rendered class page the Methods section is the heading
    [## Methods] and the blocks of the methods in the order of their short
    names: each block is the heading of the method with its anchor, name and
    signature, then its docstring, detail sections and compatibility blocks.
    Filing the methods in another order gives a page with the same text
    before and after the blocks and with the same sequence of short names;
    it is the same page when the short names are distinct.  On a rendered
    module page the Members section has one line per member, in the order of
    the members, separated by empty lines. *)
Theorem methods_sorted_members_in_tree_order :
  (∀ (c : ClassPageInfo) (page : string) (filed : list MemberInfo),
     _build_class_page c = Ok page →
     filed ≡ₚ cls_methods c →
     ∃ listed listed' before after page',
       listed ≡ₚ cls_methods c
       ∧ StronglySorted (fun a b => String.le (short_name a) (short_name b))
                        listed
       ∧ page = before
                +:+ (if list_truthy (cls_methods c)
                     then "## Methods" +:+ nl +:+ nl
                          +:+ join "" (map method_block listed)
                          +:+ nl +:+ nl
                     else "")
                +:+ after
       ∧ _build_class_page (set_methods c filed) = Ok page'
       ∧ listed' ≡ₚ filed
       ∧ StronglySorted (fun a b => String.le (short_name a) (short_name b))
                        listed'
       ∧ page' = before
                 +:+ (if list_truthy filed
                      then "## Methods" +:+ nl +:+ nl
                           +:+ join "" (map method_block listed')
                           +:+ nl +:+ nl
                      else "")
                 +:+ after
       ∧ map short_name listed' = map short_name listed
       ∧ (NoDup (map short_name (cls_methods c)) → page' = page))
  ∧ (∀ (m : ModulePageInfo) (md : string),
       _build_module_page m = Ok md →
       ∃ lines,
         Forall2 line_of (mod_members m) lines
         ∧ md = join "" (module_head_parts m) +:+ join (nl +:+ nl) lines).
Proof.
  split; [|apply module_page_lines].
  intros c page filed Hpage Hfiled.
  destruct (class_page_ok_inv _ _ Hpage) as [Hdoc Hprops].
  assert (_build_class_page (set_methods c filed)
          = Ok (join "" (class_head_parts c ++ class_middle_parts c)
                +:+ join "" (methods_section filed)
                +:+ join "" (class_tail_parts c))) as Hpage'.
  { rewrite class_page_ok by done. f_equal.
    rewrite (app_assoc (class_head_parts _)), (join_app (_ ++ _)),
      (join_app (methods_section _)). reflexivity. }
  apply class_page_result in Hpage.
  rewrite (app_assoc (class_head_parts c)), (join_app (_ ++ _)),
    (join_app (methods_section _)) in Hpage.
  exists (sorted_members (cls_methods c)), (sorted_members filed),
    (join "" (class_head_parts c ++ class_middle_parts c)),
    (join "" (class_tail_parts c)).
  eexists. split; [apply sorted_members_perm|].
  split; [apply sorted_members_sorted|].
  split; [by rewrite <- methods_section_text|].
  split; [exact Hpage'|].
  split; [apply sorted_members_perm|].
  split; [apply sorted_members_sorted|].
  split; [by rewrite <- methods_section_text|].
  split; [by apply names_sorted|].
  intros Hnames. by rewrite Hpage, (methods_section_filed _ _ Hfiled Hnames).
Qed.

Lemma methods_sorted_members_in_tree_order_witness :
  (∃ listed listed' before after page',
     listed ≡ₚ cls_methods TestClass_page
     ∧ StronglySorted (fun a b => String.le (short_name a) (short_name b))
                      listed
     ∧ TestClass_page_md
       = before
         +:+ (if list_truthy (cls_methods TestClass_page)
              then "## Methods" +:+ nl +:+ nl
                   +:+ join "" (map method_block listed)
                   +:+ nl +:+ nl
              else "")
         +:+ after
     ∧ _build_class_page (set_methods TestClass_page [a_method; b_method])
       = Ok page'
     ∧ listed' ≡ₚ [a_method; b_method]
     ∧ StronglySorted (fun a b => String.le (short_name a) (short_name b))
                      listed'
     ∧ page' = before
               +:+ (if list_truthy [a_method; b_method]
                    then "## Methods" +:+ nl +:+ nl
                         +:+ join "" (map method_block listed')
                         +:+ nl +:+ nl
                    else "")
               +:+ after
     ∧ map short_name listed' = map short_name listed
     ∧ (NoDup (map short_name (cls_methods TestClass_page)) →
        page' = TestClass_page_md))
  ∧ ∃ lines,
      Forall2 line_of (mod_members TestModule_page) lines
      ∧ "# Module: TestModule" +:+ nl +:+ nl +:+ "Tests." +:+ nl +:+ nl
          +:+ "## Members" +:+ nl +:+ nl
          +:+ "[`test_function(...)`](TestModule/test_function.md)"
          +:+ nl +:+ nl +:+ "Constant CONSTANT" +:+ nl +:+ nl
          +:+ "[`class TestClass`](TestModule/TestClass.md): "
          +:+ "Docstring for TestClass itself."
        = join "" (module_head_parts TestModule_page)
          +:+ join (nl +:+ nl) lines.
Proof.
  split.
  - apply (proj1 methods_sorted_members_in_tree_order TestClass_page
             TestClass_page_md [a_method; b_method]).
    + reflexivity.
    + apply perm_swap.
  - apply (proj2 methods_sorted_members_in_tree_order TestModule_page).
    reflexivity.
Defined.

Lemma part_app_l prefix s mid1 mid2 :
  (∃ head tail, s = head +:+ mid1 +:+ mid2 +:+ tail) →
  ∃ head tail, prefix +:+ s = head +:+ mid1 +:+ mid2 +:+ tail.
Proof.
  intros (head & tail & ->). exists (prefix +:+ head), tail.
  by rewrite !app_assoc_str.
Qed.

Lemma part_here mid1 mid2 tail :
  ∃ head tail', mid1 +:+ mid2 +:+ tail = head +:+ mid1 +:+ mid2 +:+ tail'.
Proof. by exists "", tail. Qed.

Lemma part_end mid1 mid2 :
  ∃ head tail, mid1 +:+ mid2 = head +:+ mid1 +:+ mid2 +:+ tail.
Proof. exists "", "". by rewrite app_empty_r. Qed.

Ltac find_part :=
  first [ apply part_here | apply part_end | apply part_app_l; find_part ].

Lemma class_head_details page_info :
  ∃ head tail,
    join "" (class_head_parts page_info)
    = head +:+ docstring (cls_doc page_info)
      +:+ _build_function_details (function_details (cls_doc page_info))
      +:+ tail.
Proof.
  unfold class_head_parts. do 3 rewrite join_app.
  rewrite !join_cons. change (join "" []) with "".
  rewrite app_empty_r, !app_assoc_str. find_part.
Qed.

Lemma property_parts_join prop_info :
  join "" (property_parts prop_info)
  = h3_name prop_info +:+ docstring (doc prop_info)
    +:+ _build_function_details (function_details (doc prop_info))
    +:+ nl +:+ nl.
Proof. unfold property_parts. by rewrite !join_cons, app_empty_r. Qed.

Lemma class_middle_property page_info prop_info :
  prop_info ∈ cls_properties page_info →
  ∃ head tail,
    join "" (class_middle_parts page_info)
    = head +:+ docstring (doc prop_info)
      +:+ _build_function_details (function_details (doc prop_info))
      +:+ tail.
Proof.
  intros Hin. unfold class_middle_parts.
  rewrite (list_truthy_elem _ _ Hin).
  rewrite <- (sorted_members_perm (cls_properties page_info)) in Hin.
  apply list_elem_of_split in Hin as (l1 & l2 & ->).
  rewrite flat_map_app. cbn [flat_map].
  rewrite !join_app, property_parts_join, !app_assoc_str. find_part.
Qed.

Lemma methods_section_details methods method_info :
  method_info ∈ methods →
  ∃ head tail,
    join "" (methods_section methods)
    = head +:+ docstring (doc method_info)
      +:+ _build_function_details (function_details (doc method_info))
      +:+ tail.
Proof.
  intros Hin. unfold methods_section. rewrite (list_truthy_elem _ _ Hin).
  rewrite <- (sorted_members_perm methods) in Hin.
  apply list_elem_of_split in Hin as (l1 & l2 & ->).
  rewrite flat_map_app. cbn [flat_map].
  rewrite !join_app, method_parts_join, !app_assoc_str. find_part.
Qed.

Lemma function_page_details page_info :
  ∃ head tail,
    _build_function_page page_info
    = head +:+ docstring (fn_doc page_info)
      +:+ _build_function_details (function_details (fn_doc page_info))
      +:+ tail.
Proof.
  unfold _build_function_page. cbv zeta.
  do 3 rewrite join_app. rewrite !app_assoc_str.
  change (join "" [?x]) with x. find_part.
Qed.

(** C5, as amended: the detail sections are rendered, separated by one
    newline, each as the heading [#### <Keyword>:], an empty line, the header
    text of the section and one bullet per item of the form
    [* <b>`<name>`</b>:<description>] (the name in code font inside an HTML
    bold element).  A function page has this text for its docstring right
    after the docstring; a rendered class page has it for the docstring of
    the class and for the docstring of each property and of each method,
    each time right after the docstring; a module page has no detail
    sections: it stays the same whatever the detail sections of its
    docstring. *)
Theorem function_details_rendering :
  (∀ details,
     _build_function_details details
     = join nl
         (map (fun detail =>
                 "#### " +:+ keyword detail +:+ ":" +:+ nl +:+ nl
                   +:+ header detail
                   +:+ foldr (fun kv rest =>
                                "* <b>`" +:+ kv.1 +:+ "`</b>:" +:+ kv.2
                                  +:+ rest)
                             "" (items detail))
              details))
  ∧ (∀ page_info,
       ∃ head tail,
         _build_function_page page_info
         = head +:+ docstring (fn_doc page_info)
           +:+ rendered_details (function_details (fn_doc page_info))
           +:+ tail)
  ∧ (∀ page_info page,
       _build_class_page page_info = Ok page →
       (∃ head tail,
          page = head +:+ docstring (cls_doc page_info)
                 +:+ rendered_details (function_details (cls_doc page_info))
                 +:+ tail)
       ∧ ∀ info,
           info ∈ cls_properties page_info ∨ info ∈ cls_methods page_info →
           ∃ head tail,
             page = head +:+ docstring (doc info)
                    +:+ rendered_details (function_details (doc info))
                    +:+ tail)
  ∧ (∀ page_info details,
       _build_module_page (set_module_details page_info details)
       = _build_module_page page_info).
Proof.
  split; [apply build_function_details_text|].
  split; [|split].
  - intros page_info. rewrite <- build_function_details_text.
    apply function_page_details.
  - intros page_info page ->%class_page_result.
    rewrite !join_app. split.
    + rewrite <- build_function_details_text.
      destruct (class_head_details page_info) as (head & tail & ->).
      rewrite !app_assoc_str. find_part.
    + intros info [Hin|Hin]; rewrite <- build_function_details_text.
      * destruct (class_middle_property _ _ Hin) as (head & tail & ->).
        rewrite !app_assoc_str. find_part.
      * destruct (methods_section_details _ _ Hin) as (head & tail & ->).
        rewrite !app_assoc_str. find_part.
  - reflexivity.
Qed.

Lemma function_details_rendering_witness :
  ∃ page,
    _build_class_page detailed_class_page = Ok page
    ∧ ∃ head tail,
        page = head +:+ docstring (doc detailed_method)
               +:+ rendered_details (function_details (doc detailed_method))
               +:+ tail.
Proof.
  eexists. split; [reflexivity|].
  refine (proj2 (proj1 (proj2 (proj2 function_details_rendering))
                   detailed_class_page _ eq_refl) detailed_method _).
  right. by left.
Defined.

(** * Further properties of the renderer *)

(** ** Detail sections and compatibility blocks *)

Lemma join_sep_app sep xs ys :
  xs ≠ [] → ys ≠ [] →
  join sep (xs ++ ys) = join sep xs +:+ sep +:+ join sep ys.
Proof.
  intros Hxs Hys. induction xs as [|x xs IH]; [done|].
  destruct xs as [|x' xs].
  - destruct ys; [done|]. reflexivity.
  - change ((x :: x' :: xs) ++ ys) with (x :: x' :: (xs ++ ys)).
    rewrite !join_sep_cons.
    change (x' :: xs ++ ys) with ((x' :: xs) ++ ys).
    rewrite IH by done. by rewrite !app_assoc_str.
Qed.

(** The detail sections of two lists that are put together are rendered as
    the sections of the first, one newline, and the sections of the second. *)
Theorem function_details_app (details1 details2 : list FunctionDetail) :
  details1 ≠ [] → details2 ≠ [] →
  _build_function_details (details1 ++ details2)
  = _build_function_details details1 +:+ nl
    +:+ _build_function_details details2.
Proof.
  intros H1 H2. unfold _build_function_details. rewrite map_app.
  apply join_sep_app; by destruct details1, details2.
Qed.

Lemma function_details_app_witness :
  _build_function_details
    ([mkFunctionDetail "Args" "" [("x", " d")]]
     ++ [mkFunctionDetail "Returns" "  y" []])
  = _build_function_details [mkFunctionDetail "Args" "" [("x", " d")]]
    +:+ nl +:+ _build_function_details [mkFunctionDetail "Returns" "  y" []].
Proof. by apply function_details_app. Defined.

Lemma compatibility_md_block m key value :
  m !! key = Some value →
  compatibility_md m key = compatibility_block key value.
Proof. intros H. unfold compatibility_md. by rewrite H. Qed.

Lemma sorted_keys_elem (m : gmap string string) key :
  key ∈ sorted_keys m ↔ is_Some (m !! key).
Proof.
  unfold sorted_keys. rewrite sorted_str_perm, list_elem_of_In, in_map_iff.
  split.
  - intros ([k v] & <- & Hin%list_elem_of_In%elem_of_map_to_list). by eexists.
  - intros [v Hv]. exists (key, v). split; [done|].
    by apply list_elem_of_In, elem_of_map_to_list.
Qed.

Lemma build_compatibility_block m key value :
  m !! key = Some value →
  ∃ before after,
    _build_compatibility m
    = before +:+ compatibility_block key value +:+ after.
Proof.
  intros Hk. assert (key ∈ sorted_keys m) as Hin
    by (apply sorted_keys_elem; by eexists).
  apply list_elem_of_split in Hin as (l1 & l2 & Hsplit).
  unfold _build_compatibility. rewrite Hsplit, map_app. cbn [map].
  rewrite join_app, join_cons, (compatibility_md_block _ _ _ Hk).
  by eexists _, _.
Qed.

Lemma strongly_sorted_remove {A} (R : relation A) l1 x l2 :
  StronglySorted R (l1 ++ x :: l2) → StronglySorted R (l1 ++ l2).
Proof.
  rewrite !StronglySorted_app, StronglySorted_cons.
  intros (Hcross & H1 & _ & H2). split; [|done].
  intros x1 x2 Hx1 Hx2. apply Hcross; [done|]. by right.
Qed.

Lemma sorted_keys_insert (m : gmap string string) key value :
  m !! key = None →
  ∃ l1 l2,
    sorted_keys m = l1 ++ l2
    ∧ sorted_keys (<[key := value]> m) = l1 ++ key :: l2.
Proof.
  intros Hk.
  assert (sorted_keys (<[key := value]> m) ≡ₚ key :: sorted_keys m) as Hperm.
  { unfold sorted_keys. rewrite !sorted_str_perm.
    apply (Permutation_map fst (map_to_list_insert m key value Hk)). }
  assert (key ∈ sorted_keys (<[key := value]> m)) as Hin
    by (rewrite Hperm; left).
  apply list_elem_of_split in Hin as (l1 & l2 & Hsplit).
  exists l1, l2. split; [|done].
  apply (StronglySorted_unique String.le).
  - apply sorted_str_sorted.
  - apply (strongly_sorted_remove _ _ key). rewrite <- Hsplit.
    apply sorted_str_sorted.
  - apply (Permutation_cons_inv (a := key)). rewrite <- Hperm, Hsplit.
    by rewrite Permutation_middle.
Qed.

Lemma blocks_text_app blocks1 blocks2 :
  blocks_text (blocks1 ++ blocks2)
  = blocks_text blocks1 +:+ blocks_text blocks2.
Proof. unfold blocks_text. by rewrite map_app, join_app. Qed.

Lemma blocks_insert_ne (m : gmap string string) key value keys :
  key ∉ keys →
  map (fun k => (k, default "" (<[key := value]> m !! k))) keys
  = map (fun k => (k, default "" (m !! k))) keys.
Proof.
  intros Hk. apply map_ext_in. intros k Hin%list_elem_of_In.
  rewrite lookup_insert_ne; [done|]. by intros ->.
Qed.

(** A block added to the mapping under a new target comes out at its place
    in the order of the targets: the blocks that were there are split in
    two lists, the first rendered before the new block and the second after
    it, such that the first list, the new block and the second list are in
    the order of their targets; the text of the old blocks stays as it
    was. *)
Theorem build_compatibility_insert
    (compatibility : gmap string string) (key value : string) :
  compatibility !! key = None →
  ∃ smaller larger : list (string * string),
    smaller ++ larger ≡ₚ map_to_list compatibility
    ∧ StronglySorted (fun a b : string * string => String.le a.1 b.1)
        (smaller ++ (key, value) :: larger)
    ∧ Forall (fun kv : string * string => kv.1 ≠ key) (smaller ++ larger)
    ∧ _build_compatibility compatibility
      = blocks_text smaller +:+ blocks_text larger
    ∧ _build_compatibility (<[key := value]> compatibility)
      = blocks_text smaller
        +:+ (nl +:+ nl +:+ "#### " +:+ key +:+ " compatibility" +:+ nl
                +:+ value +:+ nl)
        +:+ blocks_text larger.
Proof.
  intros Hk.
  destruct (sorted_keys_insert compatibility key value Hk)
    as (l1 & l2 & Hm & Hm').
  assert (key ∉ l1 ++ l2) as Hfresh.
  { rewrite <- Hm, sorted_keys_elem, Hk. by intros []. }
  pose proof Hfresh as [Hl1 Hl2]%not_elem_of_app.
  pose proof (sorted_blocks compatibility) as Hold.
  pose proof (sorted_blocks (<[key := value]> compatibility)) as Hnew.
  rewrite Hm, map_app in Hold. rewrite Hm', map_app in Hnew.
  cbn [map] in Hnew.
  rewrite !blocks_insert_ne, lookup_insert_eq in Hnew by done.
  cbn [default from_option id] in Hnew.
  exists (map (fun k => (k, default "" (compatibility !! k))) l1),
    (map (fun k => (k, default "" (compatibility !! k))) l2).
  split; [|split; [|split; [|split]]].
  - by rewrite Hold, merge_sort_Permutation.
  - rewrite Hnew. apply (StronglySorted_merge_sort block_le).
  - rewrite <- map_app. apply Forall_forall.
    intros [k v] (k' & Heq & Hin%list_elem_of_In)%list_elem_of_In%in_map_iff.
    cbn in Heq. simplify_eq. cbn [fst]. by intros ->.
  - by rewrite build_compatibility_text, <- blocks_text_app, Hold.
  - rewrite build_compatibility_text. unfold rendered_compatibility.
    rewrite <- Hnew, blocks_text_app. f_equal.
    unfold blocks_text. cbn [map]. by rewrite join_cons.
Qed.

Lemma build_compatibility_insert_witness :
  ∃ smaller larger : list (string * string),
    smaller ++ larger ≡ₚ map_to_list ({[ "theano" := "Not in Theano." ]}
                                       : gmap string string)
    ∧ StronglySorted (fun a b : string * string => String.le a.1 b.1)
        (smaller ++ ("numpy", "Not in NumPy.") :: larger)
    ∧ Forall (fun kv : string * string => kv.1 ≠ "numpy") (smaller ++ larger)
    ∧ _build_compatibility {[ "theano" := "Not in Theano." ]}
      = blocks_text smaller +:+ blocks_text larger
    ∧ _build_compatibility
        (<[ "numpy" := "Not in NumPy." ]> {[ "theano" := "Not in Theano." ]})
      = blocks_text smaller
        +:+ (nl +:+ nl +:+ "#### " +:+ "numpy" +:+ " compatibility" +:+ nl
                +:+ "Not in NumPy." +:+ nl)
        +:+ blocks_text larger.
Proof.
  apply (build_compatibility_insert {[ "theano" := "Not in Theano." ]}).
  reflexivity.
Defined.

(** ** Function pages *)

Lemma function_page_unfold page_info :
  ∃ head,
    _build_function_page page_info
    = head +:+ docstring (fn_doc page_info)
      +:+ _build_function_details (function_details (fn_doc page_info))
      +:+ _build_compatibility (compatibility (fn_doc page_info)).
Proof.
  unfold _build_function_page. cbv zeta.
  do 3 rewrite join_app. rewrite !app_assoc_str.
  eexists. reflexivity.
Qed.

(** A function page is rendered with each compatibility block of its
    docstring, where a class page with the same docstring fails its
    assertion. *)
Theorem function_page_renders_compatibility
    (page_info : FunctionPageInfo) (class_info : ClassPageInfo)
    (key value : string) :
  compatibility (fn_doc page_info) !! key = Some value →
  cls_doc class_info = fn_doc page_info →
  (∃ page,
     build_md_page (ForFunction page_info) = Ok page
     ∧ str_contains (nl +:+ nl +:+ "#### " +:+ key +:+ " compatibility"
                        +:+ nl +:+ value +:+ nl)
                    page = true)
  ∧ build_md_page (ForClass class_info) = Raise AssertionError.
Proof.
  intros Hk Hdoc. split.
  - eexists. split; [reflexivity|].
    destruct (function_page_unfold page_info) as [head ->].
    destruct (build_compatibility_block _ _ _ Hk) as (before & after & ->).
    fold (compatibility_block key value).
    rewrite <- !app_assoc_str. rewrite app_assoc_str.
    apply str_contains_app.
  - cbn [build_md_page]. apply class_page_raise. left. rewrite Hdoc.
    intros Hempty. by rewrite Hempty in Hk.
Qed.

Lemma function_page_renders_compatibility_witness :
  (∃ page,
     build_md_page (ForFunction numpy_function_page) = Ok page
     ∧ str_contains (nl +:+ nl +:+ "#### " +:+ "numpy" +:+ " compatibility"
                        +:+ nl +:+ "Not in NumPy." +:+ nl)
                    page = true)
  ∧ build_md_page (ForClass numpy_class_page) = Raise AssertionError.
Proof.
  apply (function_page_renders_compatibility numpy_function_page
           numpy_class_page "numpy" "Not in NumPy."); reflexivity.
Defined.

(** ** Class pages: the order and the content of the listings *)

Lemma sorted_str_filed xs ys : xs ≡ₚ ys → sorted_str xs = sorted_str ys.
Proof.
  intros H. apply (StronglySorted_unique String.le);
    [apply sorted_str_sorted..|]. by rewrite !sorted_str_perm.
Qed.

(** A class page does not depend on the order in which the child classes,
    the properties, the methods and the other members are filed, the members
    of each of the last three collections having distinct short names. *)
Theorem class_page_filing_order
    (page_info : ClassPageInfo)
    (classes properties methods other_members : list MemberInfo) :
  classes ≡ₚ cls_classes page_info →
  properties ≡ₚ cls_properties page_info →
  methods ≡ₚ cls_methods page_info →
  other_members ≡ₚ cls_other_members page_info →
  NoDup (map short_name (cls_properties page_info)) →
  NoDup (map short_name (cls_methods page_info)) →
  NoDup (map short_name (cls_other_members page_info)) →
  _build_class_page (refile page_info classes properties methods other_members)
  = _build_class_page page_info.
Proof.
  intros Hc Hp Hm Ho Np Nm No.
  unfold _build_class_page, properties_section.
  cbn [refile cls_full_name cls_aliases cls_defined_in cls_guides cls_doc
         cls_classes cls_properties cls_methods cls_other_members].
  rewrite (list_truthy_perm _ _ Hc), (list_truthy_perm _ _ Hp),
    (list_truthy_perm _ _ Ho).
  rewrite (sorted_str_filed _ _ (Permutation_map class_link Hc)).
  rewrite (sorted_members_filed _ _ Hp Np), (sorted_members_filed _ _ Ho No).
  by rewrite (methods_section_filed _ _ Hm Nm).
Qed.

Lemma class_page_filing_order_witness :
  _build_class_page
    (refile full_class_page [ChildClass; OtherChild] [a_property]
            [a_method; b_method] [CLASS_MEMBER])
  = _build_class_page full_class_page.
Proof.
  apply class_page_filing_order;
    first [apply perm_swap | reflexivity | compute_done].
Defined.

Section merge_sort_map.
Context {A B : Type} (f : A → B) (R1 : relation A) (R2 : relation B).
Context `{∀ x y, Decision (R1 x y)} `{∀ x y, Decision (R2 x y)}.
Hypothesis R_map : ∀ x y, R1 x y ↔ R2 (f x) (f y).

Lemma list_merge_map l1 l2 :
  map f (list_merge R1 l1 l2) = list_merge R2 (map f l1) (map f l2).
Proof.
  revert l2. induction l1 as [|x1 l1 IH1]; intros l2.
  - cbn [map]. by rewrite !list_merge_nil_l.
  - induction l2 as [|x2 l2 IH2].
    + cbn [map]. by rewrite !list_merge_nil_r.
    + cbn [map]. rewrite !list_merge_cons.
      destruct (decide (R1 x1 x2)) as [Hr|Hr],
        (decide (R2 (f x1) (f x2))) as [Hr'|Hr'].
      * cbn [map]. f_equal. apply IH1.
      * by apply R_map in Hr.
      * by apply R_map in Hr'.
      * cbn [map]. f_equal. apply IH2.
Qed.

Lemma merge_list_to_stack_map st l :
  map (option_map (map f)) (merge_list_to_stack R1 st l)
  = merge_list_to_stack R2 (map (option_map (map f)) st) (map f l).
Proof.
  revert l. induction st as [|[l'|] st IH]; intros l; [done| |done].
  cbn [map option_map merge_list_to_stack]. by rewrite IH, list_merge_map.
Qed.

Lemma merge_stack_map st :
  map f (merge_stack R1 st)
  = merge_stack R2 (map (option_map (map f)) st).
Proof.
  induction st as [|[l|] st IH]; [done| |done].
  cbn [map option_map merge_stack]. by rewrite list_merge_map, IH.
Qed.

Lemma merge_sort_aux_map st l :
  map f (merge_sort_aux R1 st l)
  = merge_sort_aux R2 (map (option_map (map f)) st) (map f l).
Proof.
  revert st. induction l as [|x l IH]; intros st; cbn [map merge_sort_aux].
  - apply merge_stack_map.
  - rewrite IH. f_equal. apply (merge_list_to_stack_map st [x]).
Qed.

Lemma merge_sort_map l :
  map f (merge_sort R1 l) = merge_sort R2 (map f l).
Proof. apply (merge_sort_aux_map []). Qed.

End merge_sort_map.

Lemma sorted_members_name_only xs :
  map name_only (sorted_members xs) = sorted_members (map name_only xs).
Proof. by apply merge_sort_map. Qed.

Lemma name_only_same_names xs ys :
  map short_name xs = map short_name ys →
  map name_only xs = map name_only ys.
Proof.
  revert ys. induction xs as [|x xs IH]; intros [|y ys] H; try done.
  cbn in H. simplify_eq. cbn. f_equal; [|by apply IH].
  unfold name_only. by f_equal.
Qed.

Lemma class_members_same_names xs ys :
  map short_name xs = map short_name ys →
  map h3_name (sorted_members xs) = map h3_name (sorted_members ys).
Proof.
  intros H.
  assert (∀ zs, map h3_name (sorted_members zs)
                = map h3_name (sorted_members (map name_only zs))) as Hn.
  { intros zs. by rewrite <- sorted_members_name_only, map_map. }
  by rewrite (Hn xs), (Hn ys), (name_only_same_names _ _ H).
Qed.

(** The section of the other members of a class shows their names and
    nothing else: a class page stays the same when the other members are
    replaced by members of the same short names, whatever their docstrings,
    urls and symbols. *)
Theorem class_members_names_only
    (page_info : ClassPageInfo) (other_members : list MemberInfo) :
  map short_name other_members
  = map short_name (cls_other_members page_info) →
  _build_class_page
    (refile page_info (cls_classes page_info) (cls_properties page_info)
            (cls_methods page_info) other_members)
  = _build_class_page page_info.
Proof.
  intros H. unfold _build_class_page.
  cbn [refile cls_full_name cls_aliases cls_defined_in cls_guides cls_doc
         cls_classes cls_properties cls_methods cls_other_members].
  rewrite (class_members_same_names _ _ H).
  assert (list_truthy other_members
          = list_truthy (cls_other_members page_info)) as ->; [|done].
  by destruct other_members, (cls_other_members page_info).
Qed.

Lemma class_members_names_only_witness :
  _build_class_page
    (refile full_class_page (cls_classes full_class_page)
            (cls_properties full_class_page) (cls_methods full_class_page)
            [CLASS_MEMBER_elsewhere])
  = _build_class_page full_class_page.
Proof. by apply class_members_names_only. Defined.

(** ** Module pages: the link text from one member to the next *)

Lemma members_loop_carried members parts link_text :
  for_each member_step members (parts, link_text)
  = match carried_lines link_text members with
    | Some lines =>
        Ok (parts ++ flat_map (fun line => [line; nl +:+ nl]) lines,
            carried_text link_text members)
    | None => Raise (UnboundLocalError "link_text")
    end.
Proof.
  revert parts link_text.
  induction members as [|member_info members IH]; intros parts link_text.
  - cbn. by rewrite app_nil_r.
  - cbn [for_each carried_lines carried_text foldl]. unfold carry_text.
    destruct (is_link member_info) eqn:Hl.
    + destruct (link_text_of member_info) as [text|] eqn:Ht.
      * rewrite (member_step_known _ _ _ text) by done.
        cbn [mbind result_bind]. rewrite IH. unfold carried_text.
        destruct (carried_lines (Some text) members); cbn [fmap option_fmap
          option_map]; [|done].
        cbn [flat_map]. by rewrite <- app_assoc.
      * rewrite member_step_unknown by done.
        destruct link_text as [text|]; [|done].
        cbn [mbind result_bind]. rewrite IH. unfold carried_text.
        destruct (carried_lines (Some text) members); cbn [fmap option_fmap
          option_map]; [|done].
        cbn [flat_map]. by rewrite <- app_assoc.
    + rewrite member_step_constant by done.
      cbn [mbind result_bind]. rewrite IH. unfold carried_text.
      destruct (carried_lines link_text members); cbn [fmap option_fmap
        option_map]; [|done].
      cbn [flat_map]. by rewrite <- app_assoc.
Qed.

Lemma carried_lines_length link_text members lines :
  carried_lines link_text members = Some lines →
  length lines = length members.
Proof.
  revert link_text lines.
  induction members as [|member_info members IH]; intros link_text lines H.
  - cbn in H. by simplify_eq.
  - cbn [carried_lines] in H. destruct (is_link member_info).
    + destruct (carry_text link_text member_info) as [text|]; [|done].
      destruct (carried_lines (Some text) members) as [lines'|] eqn:Hl;
        [|done].
      cbn in H. simplify_eq. cbn. f_equal. by eapply IH.
    + destruct (carried_lines link_text members) as [lines'|] eqn:Hl;
        [|done].
      cbn in H. simplify_eq. cbn. f_equal. by eapply IH.
Qed.

(** The module page, from the lines of its members. *)
Lemma module_page_carried page_info :
  _build_module_page page_info
  = match carried_lines None (mod_members page_info) with
    | Some lines =>
        Ok (join "" (module_head_parts page_info)
            +:+ join (nl +:+ nl) lines)
    | None => Raise (UnboundLocalError "link_text")
    end.
Proof.
  rewrite module_page_unfold, members_loop_carried.
  destruct (carried_lines None (mod_members page_info)) as [lines|] eqn:Hl;
    [|done].
  cbn [mbind result_bind fst]. f_equal.
  apply carried_lines_length in Hl.
  destruct (mod_members page_info) as [|member_info members].
  - destruct lines; [|done]. cbn. by rewrite app_nil_r, app_empty_r.
  - cbn [list_truthy]. apply join_pop_lines. by destruct lines.
Qed.

Lemma carried_lines_bound text members :
  is_Some (carried_lines (Some text) members).
Proof.
  revert text. induction members as [|member_info members IH]; intros text;
    [by eexists|].
  cbn [carried_lines]. unfold carry_text. destruct (is_link member_info).
  - destruct (link_text_of member_info) as [text'|].
    + destruct (IH text') as [lines ->]. by eexists.
    + destruct (IH text) as [lines ->]. by eexists.
  - destruct (IH text) as [lines ->]. by eexists.
Qed.

Lemma carried_lines_unbound members :
  carried_lines None members = None
  ↔ ∃ member_info, first_link members = Some member_info
                   ∧ link_text_of member_info = None.
Proof.
  unfold first_link.
  induction members as [|member_info members IH];
    [by split; [|intros (?&?&?)]|].
  cbn [carried_lines find]. unfold carry_text.
  destruct (is_link member_info).
  - destruct (link_text_of member_info) as [text|] eqn:Ht.
    + destruct (carried_lines_bound text members) as [lines ->].
      split; [done|]. intros (m & ? & ?). by simplify_eq.
    + split; [|done]. intros _. by exists member_info.
  - rewrite <- IH. by destruct (carried_lines None members).
Qed.

Lemma link_text_of_known member_info :
  is_Some (link_text_of member_info)
  ↔ isclass (obj member_info) || isfunction (obj member_info)
    || ismodule (obj member_info) = true.
Proof.
  unfold link_text_of. destruct (obj member_info); cbn;
    split; intros H; try done; try (by eexists); by destruct H.
Qed.

Lemma module_page_only_unbound page_info e :
  _build_module_page page_info = Raise e → e = UnboundLocalError "link_text".
Proof.
  rewrite module_page_carried.
  destruct (carried_lines None (mod_members page_info)); [done|].
  by intros [= <-].
Qed.

(** A module page is rendered exactly when its first linkable member, if it
    has one, is a class, a function or a module; and when it is not
    rendered, the error is the unbound [link_text]. *)
Theorem module_page_fails_exactly (page_info : ModulePageInfo) :
  ((∃ md, _build_module_page page_info = Ok md)
   ↔ ∀ member_info,
       first_link (mod_members page_info) = Some member_info →
       isclass (obj member_info) || isfunction (obj member_info)
       || ismodule (obj member_info) = true)
  ∧ ∀ e, _build_module_page page_info = Raise e →
         e = UnboundLocalError "link_text".
Proof.
  split; [|apply module_page_only_unbound].
  rewrite module_page_carried.
  destruct (carried_lines None (mod_members page_info)) as [lines|] eqn:Hl.
  - split; [|by eexists].
    intros _ member_info Hfirst. apply link_text_of_known.
    destruct (link_text_of member_info) eqn:Ht; [by eexists|].
    assert (carried_lines None (mod_members page_info) = None) as Hn
      by (apply carried_lines_unbound; by exists member_info).
    by rewrite Hn in Hl.
  - split; [by intros [? ?]|].
    intros Hknown. apply carried_lines_unbound in Hl as (m & Hfirst & Ht).
    apply Hknown, link_text_of_known in Hfirst as [text Htext].
    by rewrite Htext in Ht.
Qed.

Lemma carried_lines_lookup link_text members lines i member_info :
  carried_lines link_text members = Some lines →
  members !! i = Some member_info →
  lines !! i
  = Some (if is_link member_info
          then link_line
                 (default "" (carried_text link_text (take (S i) members)))
                 member_info
          else "Constant " +:+ short_name member_info).
Proof.
  revert link_text lines i.
  induction members as [|m members IH]; intros link_text lines i H Hi;
    [done|].
  assert (∃ lines',
            carried_lines (carry_text link_text m) members = Some lines'
            ∧ lines = (if is_link m
                       then link_line (default "" (carry_text link_text m)) m
                       else "Constant " +:+ short_name m) :: lines')
    as (lines' & Hrest & ->).
  { cbn [carried_lines] in H. unfold carry_text in *.
    destruct (is_link m).
    - destruct (match link_text_of m with
                | Some text => Some text | None => link_text end)
        as [text|]; [|done].
      destruct (carried_lines (Some text) members) as [lines'|]; [|done].
      cbn in H. simplify_eq. by eexists.
    - destruct (carried_lines link_text members) as [lines'|]; [|done].
      cbn in H. simplify_eq. by eexists. }
  destruct i as [|i].
  - cbn in Hi. simplify_eq. reflexivity.
  - change ((m :: members) !! S i) with (members !! i) in Hi.
    change ((?x :: lines') !! S i) with (lines' !! i).
    rewrite (IH _ _ _ Hrest Hi). reflexivity.
Qed.

(** On a rendered module page the line of a member that is no link is
    [Constant <name>], and the line of a linkable member is a link to its
    url whose text is the one the closest class, function or module among the
    linkable members up to it gives: its own when it is one of them, and
    else that of an earlier member. *)
Theorem module_page_link_texts (page_info : ModulePageInfo) (md : string) :
  _build_module_page page_info = Ok md →
  ∃ lines,
    md = join "" (module_head_parts page_info) +:+ join (nl +:+ nl) lines
    ∧ length lines = length (mod_members page_info)
    ∧ ∀ i member_info,
        mod_members page_info !! i = Some member_info →
        lines !! i
        = Some (if is_link member_info
                then link_line
                       (default ""
                          (carried_text None
                             (take (S i) (mod_members page_info))))
                       member_info
                else "Constant " +:+ short_name member_info).
Proof.
  rewrite module_page_carried.
  destruct (carried_lines None (mod_members page_info)) as [lines|] eqn:Hl;
    [|done].
  intros [= <-]. exists lines. split; [done|]. split.
  - by eapply carried_lines_length.
  - intros i member_info Hi. by eapply carried_lines_lookup.
Qed.

Lemma module_page_link_texts_witness :
  ∃ lines,
    "# Module: TestModule" +:+ nl +:+ nl +:+ "Tests." +:+ nl +:+ nl
      +:+ "## Members" +:+ nl +:+ nl
      +:+ "[`class TestClass`](TestModule/TestClass.md): "
      +:+ "Docstring for TestClass itself." +:+ nl +:+ nl
      +:+ "[`class TestClass`](TestModule/odd.md)"
    = join "" (module_head_parts stale_module_page)
      +:+ join (nl +:+ nl) lines
    ∧ length lines = length (mod_members stale_module_page)
    ∧ ∀ i member_info,
        mod_members stale_module_page !! i = Some member_info →
        lines !! i
        = Some (if is_link member_info
                then link_line
                       (default ""
                          (carried_text None
                             (take (S i) (mod_members stale_module_page))))
                       member_info
                else "Constant " +:+ short_name member_info).
Proof. apply (module_page_link_texts stale_module_page). reflexivity. Defined.

Lemma carried_lines_snoc link_text members member_info lines :
  carried_lines link_text members = Some lines →
  linkable_is_known member_info →
  carried_lines link_text (members ++ [member_info])
  = Some (lines ++ [member_line member_info]).
Proof.
  intros H Hknown. revert link_text lines H.
  induction members as [|m members IH]; intros link_text lines H.
  - cbn in H. simplify_eq. cbn [app carried_lines]. unfold member_line.
    unfold carry_text. destruct (is_link member_info) eqn:Hl; [|done].
    destruct (Hknown Hl) as [text ->]. done.
  - cbn [app carried_lines] in *. destruct (is_link m).
    + destruct (carry_text link_text m) as [text|]; [|done].
      destruct (carried_lines (Some text) members) as [lines'|] eqn:Hl;
        [|done].
      cbn in H. simplify_eq. by rewrite (IH _ _ Hl).
    + destruct (carried_lines link_text members) as [lines'|] eqn:Hl;
        [|done].
      cbn in H. simplify_eq. by rewrite (IH _ _ Hl).
Qed.

Lemma join_sep_snoc sep lines line :
  join sep (lines ++ [line])
  = join sep lines +:+ (if list_truthy lines then sep else "") +:+ line.
Proof.
  destruct lines as [|l lines]; [done|].
  rewrite join_sep_app by done. reflexivity.
Qed.

(** A member added at the end of a rendered module page, one that is no
    link or is a class, a function or a module, adds its line to the page,
    after an empty line when the page had members; what was rendered before
    stays as it is. *)
Theorem module_page_append
    (page_info : ModulePageInfo) (member_info : MemberInfo) (md : string) :
  _build_module_page page_info = Ok md →
  (is_link member_info = true →
   isclass (obj member_info) || isfunction (obj member_info)
   || ismodule (obj member_info) = true) →
  _build_module_page
    (set_members page_info (mod_members page_info ++ [member_info]))
  = Ok (md
        +:+ (if list_truthy (mod_members page_info) then nl +:+ nl else "")
        +:+ member_line member_info).
Proof.
  rewrite !module_page_carried. cbn [set_members mod_members].
  destruct (carried_lines None (mod_members page_info)) as [lines|] eqn:Hl;
    [|done].
  intros [= <-] Hknown.
  rewrite (carried_lines_snoc _ _ _ _ Hl)
    by (intros Hlink; by apply link_text_of_known, Hknown).
  rewrite join_sep_snoc, app_assoc_str. do 3 f_equal.
  apply carried_lines_length in Hl.
  by destruct lines, (mod_members page_info).
Qed.

Lemma module_page_append_witness :
  _build_module_page
    (set_members TestModule_page
       (mod_members TestModule_page ++ [constant_member]))
  = Ok (("# Module: TestModule" +:+ nl +:+ nl +:+ "Tests." +:+ nl +:+ nl
           +:+ "## Members" +:+ nl +:+ nl
           +:+ "[`test_function(...)`](TestModule/test_function.md)"
           +:+ nl +:+ nl +:+ "Constant CONSTANT" +:+ nl +:+ nl
           +:+ "[`class TestClass`](TestModule/TestClass.md): "
           +:+ "Docstring for TestClass itself.")
        +:+ (if list_truthy (mod_members TestModule_page)
             then nl +:+ nl else "")
        +:+ member_line constant_member).
Proof.
  apply (module_page_append TestModule_page constant_member);
    [reflexivity|done].
Defined.

(** ** Which error tells what *)

Lemma class_page_only_assertion page_info e :
  _build_class_page page_info = Raise e → e = AssertionError.
Proof.
  intros H.
  destruct (decide (compatibility (cls_doc page_info) = ∅)) as [Hdoc|Hdoc].
  - destruct (decide (Forall (fun prop_info =>
                                no_compatibility (doc prop_info))
                             (cls_properties page_info))) as [Hp|Hp].
    + by rewrite class_page_ok in H.
    + apply not_Forall_Exists in Hp; [|apply _].
      apply Exists_exists in Hp as (prop_info & Hin & Hbad).
      rewrite class_page_raise in H; [by simplify_eq|].
      right. by exists prop_info.
  - rewrite class_page_raise in H by by left. by simplify_eq.
Qed.

(** Each error of [build_md_page] has one origin: [ValueError] comes from a
    page info that is neither a function, a class nor a module page, and
    carries its type; [AssertionError] comes from a class page, with a
    compatibility block in the docstring of the class or of a property; the
    unbound [link_text] comes from a module page. *)
Theorem build_md_page_errors (page_info : PageInfo) (e : PyExc) :
  build_md_page page_info = Raise e →
  match e with
  | ValueError msg =>
      ∃ type_repr,
        page_info = OtherPageInfo type_repr
        ∧ msg = "Unknown Page Info Type: " +:+ type_repr
  | AssertionError =>
      ∃ p,
        page_info = ForClass p
        ∧ (compatibility (cls_doc p) ≠ ∅
           ∨ ∃ prop_info, prop_info ∈ cls_properties p
                          ∧ compatibility (doc prop_info) ≠ ∅)
  | UnboundLocalError var =>
      var = "link_text" ∧ for_module page_info = true
  end.
Proof.
  destruct page_info as [p|p|p|type_repr]; cbn [build_md_page]; intros H.
  - done.
  - pose proof (class_page_only_assertion _ _ H) as ->.
    exists p. split; [done|].
    destruct (decide (compatibility (cls_doc p) = ∅)) as [Hdoc|Hdoc];
      [|by left].
    destruct (decide (Forall (fun prop_info =>
                                no_compatibility (doc prop_info))
                             (cls_properties p))) as [Hp|Hp].
    + by rewrite class_page_ok in H.
    + apply not_Forall_Exists in Hp; [|apply _].
      apply Exists_exists in Hp as (prop_info & Hin & Hbad).
      right. by exists prop_info.
  - by rewrite (module_page_only_unbound _ _ H).
  - simplify_eq. by exists type_repr.
Qed.

Lemma build_md_page_errors_witness :
  ∃ p,
    ForClass numpy_property_page = ForClass p
    ∧ (compatibility (cls_doc p) ≠ ∅
       ∨ ∃ prop_info, prop_info ∈ cls_properties p
                      ∧ compatibility (doc prop_info) ≠ ∅).
Proof.
  apply (build_md_page_errors (ForClass numpy_property_page) AssertionError).
  reflexivity.
Defined.
